(** * luff: authentication and token lifecycle

    A shallow embedding of the OAuth2 client of [packages/shared/src/http.ts],
    the keychain wrapper of [packages/shared/src/keychain.ts], the Garmin SSO
    login of [packages/garmin/src/auth.ts] and the OAuth2 callback listener
    of [packages/mail] ([oauthCallbackFlow]), with the properties of the
    specification proved or refuted on them.

    Conventions of the embedding:
    - a JavaScript string is the sequence of its UTF-8 bytes ([string]);
      strings with an unpaired surrogate have no such form and are not
      represented;
    - a JavaScript number is an integer or NaN ([JS.number]); the numbers of
      this code are Unix seconds and durations in seconds, on which double
      arithmetic is exact;
    - asynchronous code runs in a state-and-exception monad over a world
      holding the keychain, the clock, the remote servers and the trace of
      effects ([Effects]). *)

From Stdlib Require Import ZArith Lia Ascii.
From Stdlib Require DecimalString HexadecimalString DecimalZ.
From stdpp Require Import base option list strings gmap.

Local Open Scope Z_scope.

(** ** JavaScript values and the built-ins the code calls *)

Module JS.

(** The Number values of the program, as far as they are integers, and
    NaN. [+], [-] and the comparisons below are those of the integers,
    which is what the Numbers do up to 2^53; fractions and the infinities
    have no counterpart here, and a property that depends on the text of
    a Number or on the result of its arithmetic says which integers it
    is about. *)
Inductive number := Int (z : Z) | NaN.

Definition add (a b : number) : number :=
  match a, b with Int x, Int y => Int (x + y) | _, _ => NaN end.

Definition sub (a b : number) : number :=
  match a, b with Int x, Int y => Int (x - y) | _, _ => NaN end.

(** [a < b] and [a >= b]: both are false as soon as one side is NaN. *)
Definition lt (a b : number) : bool :=
  match a, b with Int x, Int y => x <? y | _, _ => false end.

Definition ge (a b : number) : bool :=
  match a, b with Int x, Int y => y <=? x | _, _ => false end.

(** The values a parsed JSON document can hold. An object or an array is
    kept only as the text its string conversion yields. *)
Inductive value :=
| Undefined
| Null
| Bool (b : bool)
| Num (n : number)
| Str (s : string)
| Obj (text : string).

Definition nonempty (s : string) : bool :=
  match s with EmptyString => false | String _ _ => true end.

Definition truthyNumber (n : number) : bool :=
  match n with Int z => negb (z =? 0) | NaN => false end.

(** ToBoolean. *)
Definition truthy (v : value) : bool :=
  match v with
  | Undefined | Null => false
  | Bool b => b
  | Num n => truthyNumber n
  | Str s => nonempty s
  | Obj _ => true
  end.

(** [!s] on a [string | null] or [string | undefined]. *)
Definition falsy (o : option string) : bool :=
  match o with Some s => negb (nonempty s) | None => true end.

(** [a ?? b] *)
Definition nullish (v : value) : bool :=
  match v with Undefined | Null => true | _ => false end.

Definition coalesce (a b : value) : value := if nullish a then b else a.

(** The decimal numeral of an integer. *)
Definition decimalString (z : Z) : string :=
  DecimalString.NilZero.string_of_int (Z.to_int z).

(** The Number nearest to the integer [v], at least 2^53, as a mantissa
    of 53 bits and an exponent: ties go to the even mantissa. *)
Definition nearest (v : Z) : Z * Z :=
  let e := Z.log2 v - 52 in
  let q := v / 2 ^ e in
  let r := v mod 2 ^ e in
  let half := 2 ^ (e - 1) in
  let m := if (half <? r) || ((r =? half) && Z.odd q) then q + 1 else q in
  if m =? 2 ^ 53 then (2 ^ 52, e + 1) else (m, e).

(** The digits of [Number::toString] for the Number [m * 2^e], an
    integer of at least 2^53: the least count [k] of digits for which
    some [s * 10^p] with [k] digits in [s] still reads as that Number,
    and among those the nearest one, the even one on a tie. *)
Definition shortest (m e : Z) : Z * Z :=
  let V := m * 2 ^ e in
  let up := 2 ^ (e - 1) in
  let down := if m =? 2 ^ 52 then 2 ^ (e - 2) else 2 ^ (e - 1) in
  let inside x :=
    if Z.even m then (V - down <=? x) && (x <=? V + up)
    else (V - down <? x) && (x <? V + up) in
  let d := Z.of_nat (String.length (decimalString V)) in
  let candidates k :=
    flat_map
      (fun p =>
         flat_map
           (fun s =>
              if (0 <=? p) && (10 ^ (k - 1) <=? s) && (s <? 10 ^ k)
                 && inside (s * 10 ^ p)
              then [(s, p)] else [])
           [V / 10 ^ p; V / 10 ^ p + 1])
      [d - k; d - k + 1] in
  let off (c : Z * Z) := Z.abs (c.1 * 10 ^ c.2 - V) in
  let better c a :=
    (off c <? off a) || ((off c =? off a) && Z.even c.1) in
  let best l :=
    fold_left
      (fun acc c =>
         match acc with
         | None => Some c
         | Some a => if better c a then Some c else Some a
         end)
      l None in
  let fix search (ks : list Z) : Z * Z :=
    match ks with
    | [] => (V, 0)
    | k :: ks' =>
        match best (candidates k) with
        | Some c => c
        | None => search ks'
        end
    end in
  search [1; 2; 3; 4; 5; 6; 7; 8; 9; 10; 11; 12; 13; 14; 15; 16; 17].

(** [String(z)] from 2^53 on: the digits found above, followed by zeros
    while the numeral has at most 21 digits, and otherwise one digit,
    the other digits after a point, and the exponent. (An integer that is
    no Number is printed as the Number nearest to it; beyond the largest
    Number, 2^1024, there is none.) *)
Definition largeString (z : Z) : string :=
  let '(m, e) := nearest (Z.abs z) in
  let '(s, p) := shortest m e in
  let ds := decimalString s in
  let n := Z.of_nat (String.length ds) + p in
  (if z <? 0 then "-" else EmptyString)
  +:+ (if n <=? 21 then
         ds +:+ String.string_of_list_ascii (repeat "0"%char (Z.to_nat p))
       else
         match ds with
         | String c EmptyString => String c EmptyString
         | String c r => String c ("." +:+ r)
         | EmptyString => EmptyString
         end
         +:+ "e+" +:+ decimalString (n - 1)).

(** [String(n)]: below 2^53 the decimal numeral of the integer; from
    there on the shortest digits that still read as the same Number. *)
Definition numberToString (n : number) : string :=
  match n with
  | Int z => if Z.abs z <? 2 ^ 53 then decimalString z else largeString z
  | NaN => "NaN"
  end.

(** An integer below 2^53, or NaN: [String(n)] is the full decimal
    numeral, which [parseInt] reads back. *)
Definition printsPlain (n : number) : Prop :=
  match n with Int z => Z.abs z < 2 ^ 53 | NaN => True end.

(** [String(v)], the conversion of a template literal. *)
Definition toString (v : value) : string :=
  match v with
  | Undefined => "undefined"
  | Null => "null"
  | Bool true => "true"
  | Bool false => "false"
  | Num n => numberToString n
  | Str s => s
  | Obj text => text
  end.

Definition code (c : ascii) : N := Ascii.N_of_ascii c.

Definition bytes (l : list N) : string :=
  String.string_of_list_ascii (map Ascii.ascii_of_N l).

(** White space and line terminators ([\s], [trim], the prefix [parseInt]
    skips), as UTF-8: TAB LF VT FF CR SP, U+00A0, U+1680, U+2000..U+200A,
    U+2028, U+2029, U+202F, U+205F, U+3000, U+FEFF. [wsLen s] is the number
    of bytes of the white-space character [s] starts with, 0 when it
    starts with none. *)
Definition ws1 (x : N) : bool :=
  ((9 <=? x) && (x <=? 13) || (x =? 32))%N.

Definition ws2 (x y : N) : bool := ((x =? 194) && (y =? 160))%N.

Definition ws3 (x y z : N) : bool :=
  ((x =? 225) && (y =? 154) && (z =? 128)
   || (x =? 226) && (y =? 128) && ((128 <=? z) && (z <=? 138))
   || (x =? 226) && (y =? 128) && ((z =? 168) || (z =? 169) || (z =? 175))
   || (x =? 226) && (y =? 129) && (z =? 159)
   || (x =? 227) && (y =? 128) && (z =? 128)
   || (x =? 239) && (y =? 187) && (z =? 191))%N.

Definition wsLen (s : string) : nat :=
  match s with
  | String a r =>
      if ws1 (code a) then 1%nat
      else match r with
           | String b r2 =>
               if ws2 (code a) (code b) then 2%nat
               else match r2 with
                    | String c _ =>
                        if ws3 (code a) (code b) (code c) then 3%nat
                        else 0%nat
                    | EmptyString => 0%nat
                    end
           | EmptyString => 0%nat
           end
  | EmptyString => 0%nat
  end.

(** Line terminators, which [.] of a regular expression refuses:
    LF, CR, U+2028, U+2029. *)
Definition ltLen (s : string) : nat :=
  match s with
  | String a r =>
      if ((code a =? 10) || (code a =? 13))%N then 1%nat
      else match r with
           | String b (String c _) =>
               if ((code a =? 226) && (code b =? 128)
                   && ((code c =? 168) || (code c =? 169)))%N
               then 3%nat else 0%nat
           | _ => 0%nat
           end
  | EmptyString => 0%nat
  end.

Fixpoint trimStart (s : string) : string :=
  match s with
  | String _ r =>
      match wsLen s with
      | 1%nat => trimStart r
      | 2%nat => match r with String _ r2 => trimStart r2 | _ => s end
      | 3%nat =>
          match r with String _ (String _ r3) => trimStart r3 | _ => s end
      | _ => s
      end
  | EmptyString => EmptyString
  end.

Definition blank (s : string) : bool := negb (nonempty (trimStart s)).

Fixpoint trimEnd (s : string) : string :=
  match s with
  | String c r => if blank s then EmptyString else String c (trimEnd r)
  | EmptyString => EmptyString
  end.

(** [s.trim()] *)
Definition trim (s : string) : string := trimEnd (trimStart s).

Definition digit (c : ascii) : option Z :=
  let n := Z.of_N (code c) in
  if (48 <=? n) && (n <=? 57) then Some (n - 48) else None.

(** The value of the longest prefix of decimal digits, if there is one. *)
Fixpoint digits (acc : option Z) (s : string) : option Z :=
  match s with
  | String c r =>
      match digit c with
      | Some d => digits (Some (10 * default 0 acc + d)) r
      | None => acc
      end
  | EmptyString => acc
  end.

(** The integer Number nearest to [z]: [z] itself below 2^53. *)
Definition toNumber (z : Z) : Z :=
  if Z.abs z <? 2 ^ 53 then z
  else let '(m, e) := nearest (Z.abs z) in Z.sgn z * (m * 2 ^ e).

(** [parseInt(s, 10)]: leading white space, an optional sign, then the
    longest run of decimal digits, read as the nearest Number; NaN when
    that run is empty. *)
Definition parseInt (s : string) : number :=
  let t := trimStart s in
  let '(sign, body) :=
    match t with
    | String "-"%char r => (-1, r)
    | String "+"%char r => (1, r)
    | _ => (1, t)
    end in
  match digits None body with
  | Some v => Int (toNumber (sign * v))
  | None => NaN
  end.

(** [hay.includes(needle)] *)
Fixpoint includes (hay needle : string) : bool :=
  String.prefix needle hay
  || match hay with
     | String _ r => includes r needle
     | EmptyString => false
     end.

(** [xs.join(sep)] *)
Definition join (sep : string) (xs : list string) : string :=
  String.concat sep xs.

(** [s.split(sep)] for a one-character separator. *)
Fixpoint split (sep : ascii) (s : string) : list string :=
  match s with
  | EmptyString => [EmptyString]
  | String a r =>
      if Ascii.eqb a sep then EmptyString :: split sep r
      else match split sep r with
           | h :: t => String a h :: t
           | [] => [String a EmptyString]
           end
  end.

(** [s.startsWith(p)] with what follows the prefix. *)
Fixpoint stripPrefix (p s : string) : option string :=
  match p, s with
  | EmptyString, _ => Some s
  | String a p', String b s' =>
      if Ascii.eqb a b then stripPrefix p' s' else None
  | String _ _, EmptyString => None
  end.

(** [n.toString(16)] *)
Definition toString16 (n : N) : string :=
  HexadecimalString.NilZero.string_of_uint (N.to_hex_uint n).

(** [s.toUpperCase()], on the ASCII letters. *)
Definition upper (c : ascii) : ascii :=
  if ((97 <=? code c) && (code c <=? 122))%N
  then ascii_of_N (code c - 32) else c.

Fixpoint toUpperCase (s : string) : string :=
  match s with
  | String c r => String (upper c) (toUpperCase r)
  | EmptyString => EmptyString
  end.

Definition alnum (c : ascii) : bool :=
  ((48 <=? code c) && (code c <=? 57)
   || (65 <=? code c) && (code c <=? 90)
   || (97 <=? code c) && (code c <=? 122))%N.

Definition oneOf (set : string) (c : ascii) : bool :=
  existsb (Ascii.eqb c) (String.list_ascii_of_string set).

(** A byte as [%XX], two upper-case hexadecimal digits. *)
Definition escapeByte (c : ascii) : string :=
  "%" +:+ toUpperCase (toString16 (code c / 16))
      +:+ toUpperCase (toString16 (code c mod 16)).

(** [encodeURIComponent(s)]: the UTF-8 bytes of [s], each escaped unless
    it is a letter, a digit or one of [- _ . ! ~ * ' ( )]. (The built-in
    raises URIError on an unpaired surrogate; such a string has no UTF-8
    form and is not a [string] here.) *)
Fixpoint encodeURIComponent (s : string) : string :=
  match s with
  | String c r =>
      (if alnum c || oneOf "-_.!~*'()" c
       then String c EmptyString else escapeByte c)
      +:+ encodeURIComponent r
  | EmptyString => EmptyString
  end.

(** The serializer of [URLSearchParams]: letters, digits and [* - . _]
    stay, a space becomes [+], every other byte is escaped. *)
Fixpoint formEncode (s : string) : string :=
  match s with
  | String c r =>
      (if alnum c || oneOf "*-._" c then String c EmptyString
       else if Ascii.eqb c " " then "+"
       else escapeByte c)
      +:+ formEncode r
  | EmptyString => EmptyString
  end.

(** [new URLSearchParams(record).toString()] *)
Definition searchParamsToString (ps : list (string * string)) : string :=
  join "&" (map (fun p => formEncode p.1 +:+ "=" +:+ formEncode p.2) ps).

Definition hexValue (c : ascii) : option N :=
  let x := code c in
  if ((48 <=? x) && (x <=? 57))%N then Some (x - 48)%N
  else if ((65 <=? x) && (x <=? 70))%N then Some (x - 55)%N
  else if ((97 <=? x) && (x <=? 102))%N then Some (x - 87)%N
  else None.

(** The bytes of a name or a value of a form-encoded string: [+] is a
    space, [%XX] is the byte XX. What these bytes read as is up to
    [utf8Decode] below. *)
Fixpoint formDecode (s : string) : string :=
  match s with
  | String c r =>
      if Ascii.eqb c "+" then String " " (formDecode r)
      else
        match r with
        | String h (String l r') =>
            match Ascii.eqb c "%", hexValue h, hexValue l with
            | true, Some x, Some y =>
                String (ascii_of_N (16 * x + y)) (formDecode r')
            | _, _, _ => String c (formDecode r)
            end
        | _ => String c (formDecode r)
        end
  | EmptyString => EmptyString
  end.

(** U+FFFD, which stands for bytes that are not UTF-8. *)
Definition replacement : string := bytes [239; 191; 189]%N.

(** The state of the UTF-8 decoder between two bytes: nothing pending, or
    [needed] more bytes awaited, the next one within [lower..upper], after
    the bytes [seen]. *)
Inductive utf8State :=
| Idle
| Need (needed : nat) (lower upper : N) (seen : string).

(** A byte met with nothing pending. *)
Definition lead (c : ascii) : string * utf8State :=
  let x := code c in
  if (x <=? 127)%N then (String c EmptyString, Idle)
  else if ((194 <=? x) && (x <=? 223))%N then
    (EmptyString, Need 1 128 191 (String c EmptyString))
  else if ((224 <=? x) && (x <=? 239))%N then
    (EmptyString,
     Need 2 (if (x =? 224)%N then 160 else 128)%N
       (if (x =? 237)%N then 159 else 191)%N (String c EmptyString))
  else if ((240 <=? x) && (x <=? 244))%N then
    (EmptyString,
     Need 3 (if (x =? 240)%N then 144 else 128)%N
       (if (x =? 244)%N then 143 else 191)%N (String c EmptyString))
  else (replacement, Idle).

(** One byte through the decoder: a byte that cannot continue the pending
    sequence ends it with U+FFFD and is read again with nothing
    pending. *)
Definition utf8Step (st : utf8State) (c : ascii) : string * utf8State :=
  match st with
  | Idle => lead c
  | Need needed lower upper seen =>
      if ((lower <=? code c) && (code c <=? upper))%N then
        match needed with
        | S (S n) =>
            (EmptyString,
             Need (S n) 128 191 (seen +:+ String c EmptyString))
        | _ => (seen +:+ String c EmptyString, Idle)
        end
      else
        let '(out, st') := lead c in (replacement +:+ out, st')
  end.

Fixpoint utf8Run (st : utf8State) (s : string) : string :=
  match s with
  | String c r =>
      let '(out, st') := utf8Step st c in out +:+ utf8Run st' r
  | EmptyString =>
      match st with Idle => EmptyString | Need _ _ _ _ => replacement end
  end.

(** UTF-8 decode without BOM: well-formed sequences stay, every maximal
    ill-formed piece becomes U+FFFD. *)
Definition utf8Decode (s : string) : string := utf8Run Idle s.

Definition formPair (piece : string) : string * string :=
  match split "=" piece with
  | name :: rest =>
      (utf8Decode (formDecode name),
       utf8Decode (formDecode (join "=" rest)))
  | [] => (EmptyString, EmptyString)
  end.

(** [new URLSearchParams(text)] *)
Definition parseSearchParams (text : string) : list (string * string) :=
  let text := default text (stripPrefix "?" text) in
  map formPair (filter (fun piece => nonempty piece = true) (split "&" text)).

(** [params.get(name)] *)
Definition searchParamsGet
    (ps : list (string * string)) (name : string) : option string :=
  snd <$> find (fun p => String.eqb p.1 name) ps.

End JS.

(** ** The world the asynchronous code runs in *)

Module Effects.

Section World.
Context {Req Resp Err : Type}.

(** What a run leaves behind, oldest first: requests sent with [fetch]
    and writes to the keychain. *)
Inductive event :=
| Fetch (r : Req)
| SetSecret (service account value : string)
| DeleteSecret (service account : string).

(** A remote answer and the seconds it took to arrive. *)
Record served := Served { reply : Resp; elapsed : N }.

(** [secrets] is the macOS keychain, keyed by (service, account);
    [clock] is [Math.floor(Date.now() / 1000)]; [remote] answers a
    request knowing everything that happened before it. *)
Record world := World {
  secrets : gmap (string * string) string;
  clock : Z;
  trace : list event;
  remote : list event -> Req -> served;
}.

Inductive result (A : Type) :=
| Ok (a : A)
| Throw (e : Err).

Definition M (A : Type) : Type := world -> result A * world.

Definition ret {A} (a : A) : M A := fun w => (Ok A a, w).

Definition throw {A} (e : Err) : M A := fun w => (Throw A e, w).

Definition bind {A B} (c : M A) (k : A -> M B) : M B :=
  fun w =>
    match c w with
    | (Ok _ a, w') => k a w'
    | (Throw _ e, w') => (Throw B e, w')
    end.

Definition dateNow : M Z := fun w => (Ok Z (clock w), w).

(** What the remote side answers to [r] when asked in [w]. Every request
    is answered: a connection that fails, on which [fetch] rejects, is not
    part of this model. *)
Definition answer (w : world) (r : Req) : Resp :=
  reply (remote w (trace w) r).

(** The world once [r] has been sent and answered. *)
Definition afterFetch (w : world) (r : Req) : world :=
  {| secrets := secrets w;
     clock := clock w + Z.of_N (elapsed (remote w (trace w) r));
     trace := trace w ++ [Fetch r];
     remote := remote w |}.

Definition fetch (r : Req) : M Resp :=
  fun w => (Ok Resp (answer w r), afterFetch w r).

(** The world once [value] has been written under (service, account). *)
Definition afterSet (w : world) (service account value : string)
    : world :=
  {| secrets := <[(service, account) := value]> (secrets w);
     clock := clock w;
     trace := trace w ++ [SetSecret service account value];
     remote := remote w |}.

(** The requests of a trace, in order. *)
Definition fetches (t : list event) : list Req :=
  omap (fun e => match e with Fetch r => Some r | _ => None end) t.

End World.

Arguments event : clear implicits.
Arguments served : clear implicits.
Arguments world : clear implicits.
Arguments result : clear implicits.
Arguments M : clear implicits.
Arguments Ok {Err A} a.
Arguments Throw {Err A} e.
Arguments Fetch {Req} r.
Arguments SetSecret {Req} service account value.
Arguments DeleteSecret {Req} service account.

Declare Scope effect_scope.
Delimit Scope effect_scope with effect.
Notation "'let*' x ':=' c 'in' k" := (bind c (fun x => k))
  (at level 10, x name, c at level 100, k at level 200) : effect_scope.
Notation "c ';;' k" := (bind c (fun _ => k))
  (at level 100, k at level 200, right associativity) : effect_scope.

End Effects.

(** ** [packages/shared/src/keychain.ts]

    The [security] command line of macOS is taken as a map that never
    fails: [add-generic-password -U] writes or overwrites an entry,
    [find-generic-password -w] prints it, [delete-generic-password]
    removes it. *)

Module Keychain.
Import Effects.

Definition SERVICE_PREFIX : string := "luff".

Definition serviceName (tool : string) : string :=
  SERVICE_PREFIX +:+ "-" +:+ tool.

Section Keychain.
Context {Req Resp Err : Type}.
Abbreviation M := (M Req Resp Err).

Definition setSecret (tool account value : string) : M unit :=
  fun w => (Ok tt, afterSet w (serviceName tool) account value).

(** [null] when the entry is missing, else what was printed, trimmed. *)
Definition getSecret (tool account : string) : M (option string) :=
  fun w =>
    let service := serviceName tool in
    (Ok (JS.trim <$> secrets w !! (service, account)), w).

Definition deleteSecret (tool account : string) : M bool :=
  fun w =>
    let service := serviceName tool in
    match secrets w !! (service, account) with
    | Some _ =>
        (Ok true,
         {| secrets := delete (service, account) (secrets w);
            clock := clock w;
            trace := trace w ++ [DeleteSecret service account];
            remote := remote w |})
    | None => (Ok false, w)
    end.

Definition hasSecret (tool account : string) : M bool :=
  fun w =>
    match getSecret tool account w with
    | (Ok (Some _), w') => (Ok true, w')
    | (Ok None, w') => (Ok false, w')
    | (Throw e, w') => (Throw e, w')
    end.

End Keychain.

End Keychain.

(** ** [packages/shared/src/http.ts]: the generic OAuth2 client *)

Module Http.
Import JS Effects Keychain.
Local Open Scope effect_scope.

Record OAuth2Config := {
  authorizeUrl : string;
  tokenUrl : string;
  scopes : list string;
}.

Record OAuth2Tokens := {
  accessToken : string;
  refreshToken : string;
  expiresAt : number;
}.

Record OAuth2Credentials := {
  clientId : string;
  clientSecret : string;
  redirectUri : string;
}.

(** A POST to the token endpoint; [body] is the [URLSearchParams] sent,
    in insertion order. *)
Record request := {
  url : string;
  method : string;
  headers : list (string * string);
  body : list (string * string);
}.

(** [await res.json() as Record<string, unknown>]: the body of the
    answer, taken to be a JSON object as the cast says. *)
Abbreviation json := (gmap string value).

(** [data.k], [undefined] when the property is missing. *)
Definition field (data : json) (k : string) : value :=
  default Undefined (data !! k).

Definition quote : string := String (ascii_of_N 34) EmptyString.

(** One constructor per [throw] of the file. *)
Inductive error :=
| NoOAuth2Credentials (tool : string)
| TokenExchangeFailed (err : string)
| RefreshFailed (err : string)
| NotLoggedIn (tool : string)
| MissingAccessToken
| NoRefreshToken.

(** The message of the [Error] thrown. *)
Definition message (e : error) : string :=
  match e with
  | NoOAuth2Credentials tool =>
      "No OAuth2 credentials for " +:+ quote +:+ tool +:+ quote
      +:+ ". Run: " +:+ tool +:+ " auth-setup"
  | TokenExchangeFailed err => "Token exchange failed: " +:+ err
  | RefreshFailed err =>
      "Token refresh failed: " +:+ err
      +:+ ". Re-authenticate with auth-login."
  | NotLoggedIn tool => "Not logged in. Run: " +:+ tool +:+ " auth-login"
  | MissingAccessToken => "Token response missing valid access_token"
  | NoRefreshToken =>
      "No refresh token in response and no existing token to preserve"
  end.

Abbreviation M := (M request json error).

Definition saveOAuth2Credentials
    (tool clientId clientSecret redirectUri : string) : M unit :=
  setSecret tool "client-id" clientId ;;
  setSecret tool "client-secret" clientSecret ;;
  setSecret tool "redirect-uri" redirectUri.

Definition loadOAuth2Credentials (tool : string) : M OAuth2Credentials :=
  let* clientId := getSecret tool "client-id" in
  let* clientSecret := getSecret tool "client-secret" in
  let* redirectUri := getSecret tool "redirect-uri" in
  match clientId, clientSecret, redirectUri with
  | Some i, Some s, Some u =>
      if nonempty i && nonempty s && nonempty u
      then ret {| clientId := i; clientSecret := s; redirectUri := u |}
      else throw (NoOAuth2Credentials tool)
  | _, _, _ => throw (NoOAuth2Credentials tool)
  end.

Definition buildAuthorizeUrl
    (config : OAuth2Config) (clientId redirectUri state : string)
    : string :=
  let params :=
    [("response_type", "code");
     ("client_id", clientId);
     ("redirect_uri", redirectUri);
     ("scope", join " " (scopes config));
     ("state", state)] in
  authorizeUrl config +:+ "?" +:+ searchParamsToString params.

(** [typeof rawExpires === "number" ? rawExpires
     : typeof rawExpires === "string" ? parseInt(rawExpires, 10) || 3600
     : 3600] *)
Definition expiresIn (rawExpires : value) : number :=
  match rawExpires with
  | Num n => n
  | Str s => let n := parseInt s in if truthyNumber n then n else Int 3600
  | _ => Int 3600
  end.

(** [(typeof rawRefresh === "string" && rawRefresh) ? rawRefresh
     : existingRefreshToken] *)
Definition pickRefreshToken
    (rawRefresh : value) (existingRefreshToken : option string)
    : option string :=
  match rawRefresh with
  | Str r => if nonempty r then Some r else existingRefreshToken
  | _ => existingRefreshToken
  end.

Definition parseTokenResponse
    (data : json) (existingRefreshToken : option string)
    : M OAuth2Tokens :=
  match field data "access_token" with
  | Str access =>
      if nonempty access then
        let* now := dateNow in
        let expiresIn := expiresIn (field data "expires_in") in
        let refreshToken :=
          pickRefreshToken (field data "refresh_token")
            existingRefreshToken in
        match refreshToken with
        | Some r =>
            if nonempty r then
              ret {| accessToken := access;
                     refreshToken := r;
                     expiresAt := sub (add (Int now) expiresIn) (Int 60) |}
            else throw NoRefreshToken
        | None => throw NoRefreshToken
        end
      else throw MissingAccessToken
  | _ => throw MissingAccessToken
  end.

(** [(data.error_description ?? data.error ?? "unknown") as string],
    as the template literal prints it. *)
Definition providerError (data : json) : string :=
  toString
    (coalesce
       (coalesce (field data "error_description") (field data "error"))
       (Str "unknown")).

Definition formHeaders : list (string * string) :=
  [("Content-Type", "application/x-www-form-urlencoded")].

Definition exchangeRequest
    (config : OAuth2Config)
    (clientId clientSecret redirectUri code : string) : request :=
  {| url := tokenUrl config; method := "POST"; headers := formHeaders;
     body :=
       [("grant_type", "authorization_code");
        ("code", code);
        ("client_id", clientId);
        ("client_secret", clientSecret);
        ("redirect_uri", redirectUri)] |}.

Definition exchangeCode
    (config : OAuth2Config)
    (clientId clientSecret redirectUri code : string) : M OAuth2Tokens :=
  let* data :=
    fetch (exchangeRequest config clientId clientSecret redirectUri code) in
  if negb (truthy (field data "access_token")) then
    throw (TokenExchangeFailed (providerError data))
  else parseTokenResponse data None.

Definition refreshRequest
    (config : OAuth2Config)
    (clientId clientSecret refreshToken : string) : request :=
  {| url := tokenUrl config; method := "POST"; headers := formHeaders;
     body :=
       [("grant_type", "refresh_token");
        ("refresh_token", refreshToken);
        ("client_id", clientId);
        ("client_secret", clientSecret);
        ("scope", join " " (scopes config))] |}.

Definition refreshAccessToken
    (config : OAuth2Config)
    (clientId clientSecret refreshToken : string) : M OAuth2Tokens :=
  let* data :=
    fetch (refreshRequest config clientId clientSecret refreshToken) in
  if negb (truthy (field data "access_token")) then
    throw (RefreshFailed (providerError data))
  else parseTokenResponse data (Some refreshToken).

Definition saveTokens (tool : string) (tokens : OAuth2Tokens) : M unit :=
  setSecret tool "access-token" (accessToken tokens) ;;
  setSecret tool "refresh-token" (refreshToken tokens) ;;
  setSecret tool "expires-at" (numberToString (expiresAt tokens)).

Definition loadTokens (tool : string) : M (option OAuth2Tokens) :=
  let* accessToken := getSecret tool "access-token" in
  let* refreshToken := getSecret tool "refresh-token" in
  let* expiresAt := getSecret tool "expires-at" in
  match accessToken, refreshToken with
  | Some access, Some refresh =>
      if nonempty access && nonempty refresh then
        ret (Some {| accessToken := access;
                     refreshToken := refresh;
                     expiresAt :=
                       match expiresAt with
                       | Some e => if nonempty e then parseInt e else Int 0
                       | None => Int 0
                       end |})
      else ret None
  | _, _ => ret None
  end.

(** The part of [getValidAccessToken] after the comment
    "Token expired - refresh it". *)
Definition refreshAndSave
    (tool : string) (config : OAuth2Config)
    (credentialsTool : option string) (tokens : OAuth2Tokens) : M string :=
  let* creds := loadOAuth2Credentials (default tool credentialsTool) in
  let* refreshed :=
    refreshAccessToken config (clientId creds) (clientSecret creds)
      (refreshToken tokens) in
  saveTokens tool refreshed ;;
  ret (accessToken refreshed).

Definition getValidAccessToken
    (tool : string) (config : OAuth2Config)
    (credentialsTool : option string) : M string :=
  let* tokens := loadTokens tool in
  match tokens with
  | None => throw (NotLoggedIn tool)
  | Some tokens =>
      let* now := dateNow in
      if lt (Int now) (expiresAt tokens) then ret (accessToken tokens)
      else refreshAndSave tool config credentialsTool tokens
  end.

Definition clearOAuth2Data (tool : string) : M unit :=
  foldr (fun key rest => deleteSecret tool key ;; rest) (ret tt)
    ["client-id"; "client-secret"; "redirect-uri";
     "access-token"; "refresh-token"; "expires-at"].

End Http.

(** ** [packages/garmin/src/auth.ts]: SSO login, OAuth1 and OAuth2 tokens *)

Module Garmin.
Import JS Effects Keychain.
Local Open Scope effect_scope.

Definition TOOL : string := "garmin".
Definition GARMIN_DOMAIN : string := "garmin.com".
Definition SSO_ORIGIN : string := "https://sso." +:+ GARMIN_DOMAIN.
Definition CONNECT_API : string := "https://connectapi." +:+ GARMIN_DOMAIN.
Definition GC_MODERN : string :=
  "https://connect." +:+ GARMIN_DOMAIN +:+ "/modern".
Definition CONSUMER_URL : string :=
  "https://thegarth.s3.amazonaws.com/oauth_consumer.json".
Definition UA : string := "com.garmin.android.apps.connectmobile".

Definition quote : ascii := ascii_of_N 34.

(** *** OAuth1 signing *)

(** [.replace(/[!'()*]/g, (c) =>
      `%${c.charCodeAt(0).toString(16).toUpperCase()}`)] *)
Fixpoint replaceReserved (s : string) : string :=
  match s with
  | String c r =>
      (if oneOf "!'()*" c
       then "%" +:+ toUpperCase (toString16 (code c))
       else String c EmptyString)
      +:+ replaceReserved r
  | EmptyString => EmptyString
  end.

Definition percentEncode (str : string) : string :=
  replaceReserved (encodeURIComponent str).

(** The value of an [Authorization] header, kept as the arguments given
    to the signer that builds it; the nonce and the HMAC-SHA1 signature
    are not computed. *)
Inductive authorization :=
| oauth1Header
    (method url consumerKey consumerSecret token tokenSecret : string)
    (extraParams : list (string * string))
| oauth1HeaderNoToken
    (method url consumerKey consumerSecret : string)
    (extraParams : list (string * string)).

Record request := {
  method : string;
  url : string;
  userAgent : option string;
  cookie : option string;
  contentType : option string;
  authorizationHeader : option authorization;
  body : option string;
  redirectManual : bool;
}.

Record Consumer := {
  consumer_key : string;
  consumer_secret : string;
}.

(** The body of the exchange answer, at the type the code gives it. *)
Record OAuth2Exchange := {
  access_token : string;
  refresh_token : string;
  expires_in : number;
  refresh_token_expires_in : number;
}.

(** An HTTP answer: [res.status], [await res.text()],
    [res.headers.getSetCookie()], and [await res.json()] at the two types
    the code casts it to. *)
Record response := {
  status : Z;
  text : string;
  setCookie : list string;
  jsonConsumer : Consumer;
  jsonExchange : OAuth2Exchange;
}.

(** [res.ok] *)
Definition ok (res : response) : bool :=
  (200 <=? status res) && (status res <=? 299).

(** One constructor per [throw] of the file and of [requireSecret]. *)
Inductive error :=
| NoSecretFound (tool account : string)
| ConsumerFetchFailed (status : Z)
| CsrfNotFound
| AccountLocked
| MfaRequired
| LoginFailed
| OAuth1ExchangeFailed (status : Z) (text : string)
| NoOAuth1Token
| OAuth2ExchangeFailed (status : Z) (text : string)
| NotLoggedIn
| OAuth1TokensMissing
| RefreshTokenExpired.

Definition message (e : error) : string :=
  match e with
  | NoSecretFound tool account =>
      "No secret found in Keychain for " +:+ String quote tool +:+ "/"
      +:+ account +:+ String quote (". Run: " +:+ tool +:+ " setup")
  | ConsumerFetchFailed st =>
      "Failed to fetch consumer credentials: " +:+ numberToString (Int st)
  | CsrfNotFound => "Could not extract CSRF token from SSO page"
  | AccountLocked =>
      "Account is locked. Try logging in via web browser first."
  | MfaRequired =>
      "MFA is enabled. Please disable MFA or use the web browser to log in, then import tokens."
  | LoginFailed =>
      "Login failed: could not extract ticket. Check credentials."
  | OAuth1ExchangeFailed st body =>
      "OAuth1 exchange failed: " +:+ numberToString (Int st) +:+ " "
      +:+ body
  | NoOAuth1Token => "Failed to extract OAuth1 tokens from response"
  | OAuth2ExchangeFailed st body =>
      "OAuth2 exchange failed: " +:+ numberToString (Int st) +:+ " "
      +:+ body
  | NotLoggedIn => "Not logged in. Run: garmin login"
  | OAuth1TokensMissing => "OAuth1 tokens missing. Run: garmin login"
  | RefreshTokenExpired => "Refresh token expired. Run: garmin login"
  end.

Abbreviation M := (M request response error).

(** [requireSecret] of keychain.ts. *)
Definition requireSecret (tool account : string) : M string :=
  let* value := getSecret tool account in
  match value with
  | None => throw (NoSecretFound tool account)
  | Some v => ret v
  end.

Definition get (url : string) : request :=
  {| method := "GET"; url := url; userAgent := None; cookie := None;
     contentType := None; authorizationHeader := None; body := None;
     redirectManual := false |}.

(** *** Consumer credentials *)

(** [getConsumer] when the keychain holds no consumer key. *)
Definition fetchConsumer : M Consumer :=
  let* res := fetch (get CONSUMER_URL) in
  if negb (ok res) then throw (ConsumerFetchFailed (status res))
  else
    let consumer := jsonConsumer res in
    setSecret TOOL "consumer-key" (consumer_key consumer) ;;
    setSecret TOOL "consumer-secret" (consumer_secret consumer) ;;
    ret consumer.

Definition getConsumer : M Consumer :=
  let* cached := getSecret TOOL "consumer-key" in
  match cached with
  | Some key =>
      if nonempty key then
        let* secret := requireSecret TOOL "consumer-secret" in
        ret {| consumer_key := key; consumer_secret := secret |}
      else fetchConsumer
  | None => fetchConsumer
  end.

(** *** Cookie helpers *)

Definition extractCookies (res : response) : string :=
  join "; " (map (fun c => hd EmptyString (split ";" c)) (setCookie res)).

Definition mergeCookies (existing fresh : string) : string :=
  if negb (nonempty existing) then fresh
  else if negb (nonempty fresh) then existing
  else existing +:+ "; " +:+ fresh.

(** *** The two regular expressions *)

(** The lazy group [(.+?)] and the closing quote, after the first
    character of the group: the characters up to the first quote, none of
    them a line terminator. *)
Fixpoint untilQuote (s : string) : option string :=
  match s with
  | String c r =>
      if Ascii.eqb c quote then Some EmptyString
      else if negb (ltLen s =? 0)%nat then None
      else String c <$> untilQuote r
  | EmptyString => None
  end.

(** The pattern [/name="_csrf"\s+value="(.+?)"/] matched at the start
    of [s]. *)
Definition csrfAt (s : string) : option string :=
  match stripPrefix ("name=" +:+ String quote ("_csrf" +:+ String quote EmptyString)) s with
  | Some rest =>
      if (wsLen rest =? 0)%nat then None
      else
        match stripPrefix ("value=" +:+ String quote EmptyString)
                (trimStart rest) with
        | Some (String c r as v) =>
            if negb (ltLen v =? 0)%nat then None
            else String c <$> untilQuote r
        | _ => None
        end
  | None => None
  end.

(** [csrfHtml.match(/name="_csrf"\s+value="(.+?)"/)], group 1. *)
Fixpoint matchCsrf (s : string) : option string :=
  match csrfAt s with
  | Some v => Some v
  | None =>
      match s with
      | String _ r => matchCsrf r
      | EmptyString => None
      end
  end.

(** The group of the ticket pattern, a greedy run of characters other
    than the double quote, the ampersand and white space. *)
Fixpoint ticketRun (s : string) : string :=
  match s with
  | String c r =>
      if Ascii.eqb c quote || Ascii.eqb c "&" || negb (wsLen s =? 0)%nat
      then EmptyString
      else String c (ticketRun r)
  | EmptyString => EmptyString
  end.

Definition ticketAt (s : string) : option string :=
  match stripPrefix "ticket=" s with
  | Some rest =>
      let run := ticketRun rest in
      if nonempty run then Some run else None
  | None => None
  end.

(** Group 1 of [loginHtml.match] on the ticket pattern. *)
Fixpoint matchTicket (s : string) : option string :=
  match ticketAt s with
  | Some t => Some t
  | None =>
      match s with
      | String _ r => matchTicket r
      | EmptyString => None
      end
  end.

(** *** OAuth2 exchange *)

Definition exchangeUrl : string :=
  CONNECT_API +:+ "/oauth-service/oauth/exchange/user/2.0".

Definition exchangeRequest
    (consumer : Consumer) (oauthToken oauthTokenSecret : string)
    : request :=
  {| method := "POST"; url := exchangeUrl; userAgent := Some UA;
     cookie := None;
     contentType := Some "application/x-www-form-urlencoded";
     authorizationHeader :=
       Some (oauth1Header "POST" exchangeUrl (consumer_key consumer)
               (consumer_secret consumer) oauthToken oauthTokenSecret []);
     body := None; redirectManual := false |}.

Definition exchangeOAuth2
    (consumer : Consumer) (oauthToken oauthTokenSecret : string)
    : M unit :=
  let* res := fetch (exchangeRequest consumer oauthToken oauthTokenSecret) in
  if negb (ok res) then
    throw (OAuth2ExchangeFailed (status res) (text res))
  else
    let data := jsonExchange res in
    let* now := dateNow in
    setSecret TOOL "access-token" (access_token data) ;;
    setSecret TOOL "refresh-token" (refresh_token data) ;;
    setSecret TOOL "expires-at"
      (numberToString (sub (add (Int now) (expires_in data)) (Int 60))) ;;
    setSecret TOOL "refresh-expires-at"
      (numberToString
         (sub (add (Int now) (refresh_token_expires_in data)) (Int 60))).

(** *** SSO login flow *)

Definition signinParams : list (string * string) :=
  [("id", "gauth-widget"); ("embedWidget", "true");
   ("clientId", "GarminConnect"); ("locale", "en");
   ("service", GC_MODERN)].

Definition signinUrl : string :=
  SSO_ORIGIN +:+ "/sso/signin?" +:+ searchParamsToString signinParams.

Definition embedUrl : string :=
  SSO_ORIGIN +:+ "/sso/embed?clientId=GarminConnect&locale=en&service="
  +:+ encodeURIComponent GC_MODERN.

Definition oauth1Url : string :=
  CONNECT_API +:+ "/oauth-service/oauth/preauthorized".

(** "Check for errors" and "Extract ticket" of [login], on the body of
    the answer to the credentials. *)
Definition extractTicket (loginHtml : string) : M string :=
  if includes loginHtml "locked" then throw AccountLocked
  else
    match matchTicket loginHtml with
    | None =>
        if includes loginHtml "MFA" then throw MfaRequired
        else throw LoginFailed
    | Some ticket => ret ticket
    end.

Definition preauthorizedRequest
    (consumer : Consumer) (ticket : string) : request :=
  {| method := "GET";
     url := oauth1Url +:+ "?ticket=" +:+ encodeURIComponent ticket;
     userAgent := Some UA; cookie := None; contentType := None;
     authorizationHeader :=
       Some (oauth1HeaderNoToken "GET" oauth1Url (consumer_key consumer)
               (consumer_secret consumer) [("ticket", ticket)]);
     body := None; redirectManual := false |}.

(** [login]; the closing [console.log] is left out. *)
Definition login (email password : string) : M unit :=
  let* consumer := getConsumer in
  let* embedRes :=
    fetch {| method := "GET"; url := embedUrl; userAgent := Some UA;
             cookie := None; contentType := None;
             authorizationHeader := None; body := None;
             redirectManual := true |} in
  let cookies := extractCookies embedRes in
  let* csrfRes :=
    fetch {| method := "GET"; url := signinUrl; userAgent := Some UA;
             cookie := Some cookies; contentType := None;
             authorizationHeader := None; body := None;
             redirectManual := false |} in
  let csrfHtml := text csrfRes in
  match matchCsrf csrfHtml with
  | None => throw CsrfNotFound
  | Some csrf =>
      let allCookies := mergeCookies cookies (extractCookies csrfRes) in
      let loginBody :=
        [("username", email); ("password", password);
         ("embed", "true"); ("_csrf", csrf)] in
      let* loginRes :=
        fetch {| method := "POST"; url := signinUrl; userAgent := Some UA;
                 cookie := Some allCookies;
                 contentType := Some "application/x-www-form-urlencoded";
                 authorizationHeader := None;
                 body := Some (searchParamsToString loginBody);
                 redirectManual := true |} in
      let loginHtml := text loginRes in
      let* ticket := extractTicket loginHtml in
      let* oauth1Res := fetch (preauthorizedRequest consumer ticket) in
      if negb (ok oauth1Res) then
        throw (OAuth1ExchangeFailed (status oauth1Res) (text oauth1Res))
      else
        let oauth1Params := parseSearchParams (text oauth1Res) in
        match searchParamsGet oauth1Params "oauth_token",
              searchParamsGet oauth1Params "oauth_token_secret" with
        | Some oauthToken, Some oauthTokenSecret =>
            if nonempty oauthToken && nonempty oauthTokenSecret then
              setSecret TOOL "oauth1-token" oauthToken ;;
              setSecret TOOL "oauth1-secret" oauthTokenSecret ;;
              exchangeOAuth2 consumer oauthToken oauthTokenSecret
            else throw NoOAuth1Token
        | _, _ => throw NoOAuth1Token
        end
  end.

(** *** Token management *)

(** [getValidAccessToken] from "Need refresh" on. *)
Definition refreshWithOAuth1 (now : Z) : M string :=
  let* oauth1Token := getSecret TOOL "oauth1-token" in
  let* oauth1Secret := getSecret TOOL "oauth1-secret" in
  match oauth1Token, oauth1Secret with
  | Some token, Some secret =>
      if nonempty token && nonempty secret then
        let* stored := getSecret TOOL "refresh-expires-at" in
        let refreshExpiresAt := parseInt (default "0" stored) in
        if ge (Int now) refreshExpiresAt then throw RefreshTokenExpired
        else
          let* consumer := getConsumer in
          exchangeOAuth2 consumer token secret ;;
          requireSecret TOOL "access-token"
      else throw OAuth1TokensMissing
  | _, _ => throw OAuth1TokensMissing
  end.

Definition getValidAccessToken : M string :=
  let* accessToken := getSecret TOOL "access-token" in
  match accessToken with
  | Some access =>
      if nonempty access then
        let* stored := getSecret TOOL "expires-at" in
        let expiresAt := parseInt (default "0" stored) in
        let* now := dateNow in
        if lt (Int now) expiresAt then ret access
        else refreshWithOAuth1 now
      else throw NotLoggedIn
  | None => throw NotLoggedIn
  end.

End Garmin.

(** ** [packages/mail]: the OAuth2 callback listener ([oauthCallbackFlow])

    The promise the flow returns and the local server that settles it, as
    a state machine driven by the events of the event loop: a request
    reaching the server, one of the 100 ms timers that stop the server
    firing, the 120 s timer firing. *)

Module Mail.
Import JS.

Definition GMAIL_OAUTH2_CONFIG : Http.OAuth2Config :=
  {| Http.authorizeUrl := "https://accounts.google.com/o/oauth2/v2/auth";
     Http.tokenUrl := "https://oauth2.googleapis.com/token";
     Http.scopes := ["https://www.googleapis.com/auth/gmail.modify"] |}.

(** [url.searchParams.get] on the three parameters the handler reads. *)
Record callback := {
  error : option string;
  code : option string;
  state : option string;
}.

Inductive rejection :=
| OAuth2Error (error : string)
| StateMismatch
| Timeout.

Definition dash : string := bytes [226; 128; 148]%N.

Definition message (r : rejection) : string :=
  match r with
  | OAuth2Error e => "OAuth2 error: " +:+ e
  | StateMismatch => "OAuth2 state mismatch " +:+ dash +:+ " possible CSRF"
  | Timeout =>
      "OAuth2 timeout " +:+ dash +:+ " no callback received after 2 minutes"
  end.

(** A promise settles once: [resolve] and [reject] on a settled promise
    do nothing. *)
Inductive promise :=
| Pending
| Resolved (code redirectUri : string)
| Rejected (reason : rejection).

Definition resolve (code redirectUri : string) (p : promise) : promise :=
  match p with Pending => Resolved code redirectUri | _ => p end.

Definition reject (reason : rejection) (p : promise) : promise :=
  match p with Pending => Rejected reason | _ => p end.

(** The four bodies the handler answers with. *)
Inductive page :=
| FailedPage (error : string)
| WaitingPage
| MismatchPage
| AuthenticatedPage.

Definition pageText (p : page) : string :=
  match p with
  | FailedPage e => "Authentication failed: " +:+ e +:+ ". Close this tab."
  | WaitingPage => "Waiting for OAuth2 callback..."
  | MismatchPage => "State mismatch. Authentication aborted."
  | AuthenticatedPage =>
      "Authenticated! You can close this tab and return to the terminal."
  end.

Record listener := {
  settled : promise;
  listening : bool;
  stopTimers : nat;
  timeoutArmed : bool;
  port : Z;
}.

(** The flow just after [Bun.serve] bound [port]. *)
Definition start (port : Z) : listener :=
  {| settled := Pending; listening := true; stopTimers := 0;
     timeoutArmed := true; port := port |}.

Definition redirectUri (l : listener) : string :=
  "http://localhost:" +:+ numberToString (Int (port l)).

(** The URL handed to the browser. *)
Definition authUrl (clientId email state : string) (l : listener) : string :=
  Http.buildAuthorizeUrl GMAIL_OAUTH2_CONFIG clientId (redirectUri l) state
  +:+ "&access_type=offline&prompt=consent&login_hint="
  +:+ encodeURIComponent email.

(** [setTimeout(() => server.stop(), 100)] after settling. *)
Definition settleAndStopLater (p : promise) (l : listener) : listener :=
  {| settled := p; listening := listening l;
     stopTimers := S (stopTimers l); timeoutArmed := timeoutArmed l;
     port := port l |}.

(** The [fetch(req)] handler of the server. *)
Definition handler (state : string) (req : callback) (l : listener)
    : page * listener :=
  if negb (falsy (error req)) then
    let e := default EmptyString (error req) in
    (FailedPage e, settleAndStopLater (reject (OAuth2Error e) (settled l)) l)
  else if falsy (code req) then (WaitingPage, l)
  else if negb (bool_decide (Mail.state req = Some state)) then
    (MismatchPage, settleAndStopLater (reject StateMismatch (settled l)) l)
  else
    let authCode := default EmptyString (code req) in
    (AuthenticatedPage,
     settleAndStopLater (resolve authCode (redirectUri l) (settled l)) l).

Inductive event :=
| Request (req : callback)
| StopTimerFires
| TimeoutFires.

(** One turn of the event loop; a request is answered only while the
    server listens. *)
Definition step (state : string) (e : event) (l : listener)
    : option page * listener :=
  match e with
  | Request req =>
      if listening l then
        let '(p, l') := handler state req l in (Some p, l')
      else (None, l)
  | StopTimerFires =>
      match stopTimers l with
      | S n =>
          (None,
           {| settled := settled l; listening := false; stopTimers := n;
              timeoutArmed := timeoutArmed l; port := port l |})
      | O => (None, l)
      end
  | TimeoutFires =>
      if timeoutArmed l then
        (None,
         {| settled := reject Timeout (settled l); listening := false;
            stopTimers := stopTimers l; timeoutArmed := false;
            port := port l |})
      else (None, l)
  end.

Fixpoint run (state : string) (events : list event) (l : listener)
    : list (option page) * listener :=
  match events with
  | [] => ([], l)
  | e :: rest =>
      let '(p, l') := step state e l in
      let '(ps, l'') := run state rest l' in
      (p :: ps, l'')
  end.

End Mail.

(** ** Words of the specification *)

Module Spec.
Import JS.

(** A token response carries no refresh token: the property is missing,
    or is not a string, or is the empty string. *)
Definition lacksRefreshToken (data : gmap string value) : Prop :=
  forall r, data !! "refresh_token" = Some (Str r) -> r = EmptyString.

(** [now < expiresAt] and [now >= expiresAt]; neither holds of NaN. *)
Definition fresh (now : Z) (expiresAt : number) : Prop :=
  match expiresAt with Int e => now < e | NaN => False end.

Definition expired (now : Z) (expiresAt : number) : Prop :=
  match expiresAt with Int e => e <= now | NaN => False end.

(** An event that may come before the OAuth1-to-OAuth2 exchange of a
    login: a request to another endpoint, or a keychain write. *)
Definition beforeExchange (e : Effects.event Garmin.request) : Prop :=
  match e with
  | Effects.Fetch r => Garmin.url r <> Garmin.exchangeUrl
  | Effects.SetSecret _ _ _ => True
  | Effects.DeleteSecret _ _ => False
  end.

(** An event that leaves the OAuth1 token and secret alone: a keychain
    write to another entry. *)
Definition keepsOAuth1 (e : Effects.event Garmin.request) : Prop :=
  match e with
  | Effects.SetSecret _ account _ =>
      account <> "oauth1-token" /\ account <> "oauth1-secret"
  | _ => False
  end.

(** The 60-second safety buffer on a lifetime of [seconds]. *)
Definition buffered (now seconds : Z) : number := Int (now + seconds - 60).

End Spec.

(** ** Concrete worlds *)

Module Scenario.
Import JS Effects.

(** A world with an empty trace whose remote side gives the same answer
    to every request, at once. *)
Definition constant {Req Resp : Type}
    (secrets : gmap (string * string) string) (clock : Z) (r : Resp)
    : world Req Resp :=
  {| secrets := secrets; clock := clock; trace := [];
     remote := fun _ _ => {| reply := r; elapsed := 0%N |} |}.

Definition provider : Http.OAuth2Config :=
  {| Http.authorizeUrl := "https://provider.example/authorize";
     Http.tokenUrl := "https://provider.example/token";
     Http.scopes := ["read"; "write"] |}.

(** An answer with an access token and nothing else. *)
Definition accessOnly : gmap string value :=
  {[ "access_token" := Str "new-access" ]}.

(** A full token answer, the lifetime as a JSON number. *)
Definition fullAnswer : gmap string value :=
  <[ "access_token" := Str "new-access" ]>
    (<[ "refresh_token" := Str "new-refresh" ]>
       {[ "expires_in" := Num (Int 1800) ]}).

(** The provider refuses. *)
Definition refusal : gmap string value :=
  {[ "error" := Str "invalid_grant" ]}.

(** A keychain for the tool "cal": client credentials, and tokens whose
    access token expired at second 100. *)
Definition staleKeychain : gmap (string * string) string :=
  list_to_map
    [(("luff-cal", "client-id"), "id");
     (("luff-cal", "client-secret"), "secret");
     (("luff-cal", "redirect-uri"), "http://localhost:8080");
     (("luff-cal", "access-token"), "old-access");
     (("luff-cal", "refresh-token"), "old-refresh");
     (("luff-cal", "expires-at"), "100")].



(** Second 200, the keychain above, a provider that always gives
    [answer]. *)
Definition staleWorld (answer : gmap string value)
    : world Http.request (gmap string value) :=
  constant staleKeychain 200 answer.

Definition oldTokens : Http.OAuth2Tokens :=
  {| Http.accessToken := "old-access";
     Http.refreshToken := "old-refresh";
     Http.expiresAt := Int 100 |}.

(** An answer of the Garmin servers with nothing in it. *)
Definition blankResponse : Garmin.response :=
  {| Garmin.status := 200; Garmin.text := EmptyString;
     Garmin.setCookie := [];
     Garmin.jsonConsumer :=
       {| Garmin.consumer_key := EmptyString;
          Garmin.consumer_secret := EmptyString |};
     Garmin.jsonExchange :=
       {| Garmin.access_token := EmptyString;
          Garmin.refresh_token := EmptyString;
          Garmin.expires_in := NaN;
          Garmin.refresh_token_expires_in := NaN |} |}.

Definition garminWorld (secrets : gmap (string * string) string) (clock : Z)
    : world Garmin.request Garmin.response :=
  constant secrets clock blankResponse.

(** A Garmin keychain after a login, with the two expiries given. *)
Definition garminKeychain (expiresAt refreshExpiresAt : string)
    : gmap (string * string) string :=
  list_to_map
    [(("luff-garmin", "consumer-key"), "key");
     (("luff-garmin", "consumer-secret"), "secret");
     (("luff-garmin", "oauth1-token"), "oauth1");
     (("luff-garmin", "oauth1-secret"), "oauth1-secret");
     (("luff-garmin", "access-token"), "old-access");
     (("luff-garmin", "refresh-token"), "old-refresh");
     (("luff-garmin", "expires-at"), expiresAt);
     (("luff-garmin", "refresh-expires-at"), refreshExpiresAt)].

(** The exchange endpoint grants new tokens. *)
Definition exchangeGranted : Garmin.response :=
  {| Garmin.status := 200; Garmin.text := EmptyString;
     Garmin.setCookie := [];
     Garmin.jsonConsumer := Garmin.jsonConsumer blankResponse;
     Garmin.jsonExchange :=
       {| Garmin.access_token := "new-access";
          Garmin.refresh_token := "new-refresh";
          Garmin.expires_in := Int 3600;
          Garmin.refresh_token_expires_in := Int 86400 |} |}.

(** Second 1000; the access token expired one second ago and the refresh
    token is good for another day. *)
Definition staleAccess : world Garmin.request Garmin.response :=
  constant (garminKeychain "999" "87400") 1000 exchangeGranted.

(** The exchange endpoint is down. *)
Definition exchangeDown : Garmin.response :=
  {| Garmin.status := 503; Garmin.text := "down";
     Garmin.setCookie := [];
     Garmin.jsonConsumer := Garmin.jsonConsumer blankResponse;
     Garmin.jsonExchange := Garmin.jsonExchange blankResponse |}.

(** The same stored tokens as in [staleAccess], with the exchange
    endpoint down. *)
Definition staleAccessDown : world Garmin.request Garmin.response :=
  constant (garminKeychain "999" "87400") 1000 exchangeDown.

Definition page (text : string) (cookies : list string) : Garmin.response :=
  {| Garmin.status := 200; Garmin.text := text;
     Garmin.setCookie := cookies;
     Garmin.jsonConsumer :=
       {| Garmin.consumer_key := "key";
          Garmin.consumer_secret := "secret" |};
     Garmin.jsonExchange := Garmin.jsonExchange blankResponse |}.

Definition csrfPage : string :=
  "<input name=" +:+ String Garmin.quote "_csrf"
  +:+ String Garmin.quote " value=" +:+ String Garmin.quote "csrf-1"
  +:+ String Garmin.quote ">".

(** Servers that let a login through up to the exchange, which answers
    with [exchange]. *)
Definition garminServer (exchange : Garmin.response) (req : Garmin.request)
    : Garmin.response :=
  if String.eqb (Garmin.url req) Garmin.CONSUMER_URL then page EmptyString []
  else if String.eqb (Garmin.url req) Garmin.embedUrl then
    page EmptyString ["SESSION=abc; Path=/; HttpOnly"]
  else if String.eqb (Garmin.url req) Garmin.signinUrl then
    if String.eqb (Garmin.method req) "GET"
    then page csrfPage ["GARMIN-SSO=1; Secure"]
    else page "<a href='https://connect.garmin.com/modern?ticket=ST-0123&x=1'>" []
  else if String.eqb (Garmin.url req) Garmin.exchangeUrl then exchange
  else page "oauth_token=T1&oauth_token_secret=S1" [].

Definition loginWorld (exchange : Garmin.response)
    : world Garmin.request Garmin.response :=
  {| secrets := ∅; clock := 1000; trace := [];
     remote := fun _ req =>
       {| reply := garminServer exchange req; elapsed := 1%N |} |}.

Definition someConsumer : Garmin.Consumer :=
  {| Garmin.consumer_key := "key"; Garmin.consumer_secret := "secret" |}.

(** A callback with the expected state "s3cr3t" and the code "abc". *)
Definition goodCallback : Mail.callback :=
  {| Mail.error := None; Mail.code := Some "abc";
     Mail.state := Some "s3cr3t" |}.

(** The same code under a state the flow did not issue. *)
Definition forgedCallback : Mail.callback :=
  {| Mail.error := None; Mail.code := Some "abc";
     Mail.state := Some "guess" |}.

Definition exchangeWorld (answer : gmap string value)
    : world Http.request (gmap string value) :=
  constant ∅ 1000 answer.

(** A refresh with the token "old-refresh", answered by an access token
    alone at second 1000. *)
Definition refreshedTokens : Http.OAuth2Tokens :=
  {| Http.accessToken := "new-access";
     Http.refreshToken := "old-refresh";
     Http.expiresAt := Int 4540 |}.

(** The tokens the full answer yields at second 1000. *)
Definition freshTokens : Http.OAuth2Tokens :=
  {| Http.accessToken := "new-access";
     Http.refreshToken := "new-refresh";
     Http.expiresAt := Int 2740 |}.

End Scenario.

(** ** RFC 3986 percent-encoding, as the specification words it *)

Module Rfc3986.

(** ALPHA / DIGIT / [-] / [.] / [_] / [~] *)
Definition unreserved (c : ascii) : bool :=
  JS.oneOf
    "ABCDEFGHIJKLMNOPQRSTUVWXYZabcdefghijklmnopqrstuvwxyz0123456789-._~" c.

Definition hexDigit (n : N) : ascii :=
  default "0"%char (String.get (N.to_nat n) "0123456789ABCDEF").

Definition escaped (c : ascii) : string :=
  String "%" (String (hexDigit (JS.code c / 16))
                (String (hexDigit (JS.code c mod 16)) EmptyString)).

Fixpoint encode (s : string) : string :=
  match s with
  | String c r =>
      (if unreserved c then String c EmptyString else escaped c)
      +:+ encode r
  | EmptyString => EmptyString
  end.

End Rfc3986.

(** ** Reading decimal numerals *)

Module Numeral.

(** The number a decimal numeral writes after the digits read so far have
    given [acc]. *)
Fixpoint value (d : Decimal.uint) (acc : Z) : Z :=
  match d with
  | Decimal.Nil => acc
  | Decimal.D0 d => value d (10 * acc)
  | Decimal.D1 d => value d (10 * acc + 1)
  | Decimal.D2 d => value d (10 * acc + 2)
  | Decimal.D3 d => value d (10 * acc + 3)
  | Decimal.D4 d => value d (10 * acc + 4)
  | Decimal.D5 d => value d (10 * acc + 5)
  | Decimal.D6 d => value d (10 * acc + 6)
  | Decimal.D7 d => value d (10 * acc + 7)
  | Decimal.D8 d => value d (10 * acc + 8)
  | Decimal.D9 d => value d (10 * acc + 9)
  end.

(** A character that no white-space sequence starts with. *)
Definition plain (c : ascii) : Prop :=
  (JS.code c < 194)%N /\ JS.ws1 (JS.code c) = false.

End Numeral.

(** ** The requests and the effects of a login, named *)

Module Flow.
Import JS Effects Garmin.

(** The three requests [login] builds in place. *)
Definition embedRequest : request :=
  {| method := "GET"; url := embedUrl; userAgent := Some UA;
     cookie := None; contentType := None; authorizationHeader := None;
     body := None; redirectManual := true |}.

Definition signinPageRequest (cookies : string) : request :=
  {| method := "GET"; url := signinUrl; userAgent := Some UA;
     cookie := Some cookies; contentType := None;
     authorizationHeader := None; body := None;
     redirectManual := false |}.

Definition credentialsRequest (allCookies email password csrf : string)
    : request :=
  {| method := "POST"; url := signinUrl; userAgent := Some UA;
     cookie := Some allCookies;
     contentType := Some "application/x-www-form-urlencoded";
     authorizationHeader := None;
     body :=
       Some (searchParamsToString
               [("username", email); ("password", password);
                ("embed", "true"); ("_csrf", csrf)]);
     redirectManual := true |}.

(** The worlds a login goes through and the answers it gets, each from
    the one before, starting from the world [w] in which [login] is
    called. *)
Section Stages.
Variable w : world request response.
Variables email password : string.

(** The cookies of the answer to the embed request. *)
Definition jar : string :=
  extractCookies (answer (getConsumer w).2 embedRequest).

Definition afterEmbed : world request response :=
  afterFetch (getConsumer w).2 embedRequest.

(** The sign-in page that is served. *)
Definition signinPage : response :=
  answer afterEmbed (signinPageRequest jar).

Definition afterSigninPage : world request response :=
  afterFetch afterEmbed (signinPageRequest jar).

(** The credentials request, given the CSRF token. *)
Definition credentials (csrf : string) : request :=
  credentialsRequest (mergeCookies jar (extractCookies signinPage))
    email password csrf.

(** The answer to the credentials, in which the ticket is looked for. *)
Definition loginPage (csrf : string) : response :=
  answer afterSigninPage (credentials csrf).

Definition afterCredentials (csrf : string) : world request response :=
  afterFetch afterSigninPage (credentials csrf).

(** The answer to the ticket exchange, in which the OAuth1 token and
    secret are looked for. *)
Definition ticketAnswer (csrf : string) (consumer : Consumer)
    (ticket : string) : response :=
  answer (afterCredentials csrf) (preauthorizedRequest consumer ticket).

Definition afterTicket (csrf : string) (consumer : Consumer)
    (ticket : string) : world request response :=
  afterFetch (afterCredentials csrf) (preauthorizedRequest consumer ticket).

(** The world in which the OAuth2 exchange request is sent, the OAuth1
    token and secret written. *)
Definition afterPersist (csrf : string) (consumer : Consumer)
    (ticket token secret : string) : world request response :=
  afterSet
    (afterSet (afterTicket csrf consumer ticket)
       (Keychain.serviceName TOOL) "oauth1-token" token)
    (Keychain.serviceName TOOL) "oauth1-secret" secret.

(** The answer to the OAuth2 exchange, and the clock when it has come. *)
Definition exchangeAnswer (csrf : string) (consumer : Consumer)
    (ticket token secret : string) : response :=
  answer (afterPersist csrf consumer ticket token secret)
    (exchangeRequest consumer token secret).

Definition exchangeTime (csrf : string) (consumer : Consumer)
    (ticket token secret : string) : Z :=
  clock
    (afterFetch (afterPersist csrf consumer ticket token secret)
       (exchangeRequest consumer token secret)).

(** The OAuth1 token and secret served for [ticket]: those of the answer
    to the ticket exchange, both present and non-empty. *)
Definition servedOAuth1 (csrf : string) (consumer : Consumer)
    (ticket token secret : string) : Prop :=
  let params := parseSearchParams (text (ticketAnswer csrf consumer ticket)) in
  searchParamsGet params "oauth_token" = Some token
  /\ searchParamsGet params "oauth_token_secret" = Some secret
  /\ nonempty token = true
  /\ nonempty secret = true.

(** The OAuth2 exchange was granted, and [a], [r], [e], [re] are what
    [exchangeOAuth2] then writes: the two tokens of the answer and the two
    expiries, counted from the clock when the answer has come. *)
Definition granted (csrf : string) (consumer : Consumer)
    (ticket token secret a r e re : string) : Prop :=
  let res := exchangeAnswer csrf consumer ticket token secret in
  let data := jsonExchange res in
  let now := Int (exchangeTime csrf consumer ticket token secret) in
  ok res = true
  /\ a = access_token data
  /\ r = refresh_token data
  /\ e = numberToString (sub (add now (expires_in data)) (Int 60))
  /\ re = numberToString
            (sub (add now (refresh_token_expires_in data)) (Int 60)).

(** The OAuth2 exchange was refused with [st] and [body]. *)
Definition refused (csrf : string) (consumer : Consumer)
    (ticket token secret : string) (st : Z) (body : string) : Prop :=
  let res := exchangeAnswer csrf consumer ticket token secret in
  ok res = false /\ st = status res /\ body = text res.

(** The login got as far as the ticket exchange: the consumer credentials
    were obtained, a CSRF token was matched in the sign-in page and a
    ticket in the answer to the credentials. *)
Definition reachedTicket (csrf : string) (consumer : Consumer)
    (ticket : string) : Prop :=
  (getConsumer w).1 = Ok consumer
  /\ matchCsrf (text signinPage) = Some csrf
  /\ includes (text (loginPage csrf)) "locked" = false
  /\ matchTicket (text (loginPage csrf)) = Some ticket.

End Stages.

(** What [getConsumer] may leave in the trace: the request for the
    consumer file and the writes of the two consumer entries. *)
Definition consumerEvent (e : event request) : Prop :=
  e = Fetch (get CONSUMER_URL)
  \/ (exists v, e = SetSecret (Keychain.serviceName TOOL) "consumer-key" v)
  \/ (exists v,
        e = SetSecret (Keychain.serviceName TOOL) "consumer-secret" v).

(** The entries in which tokens are kept. *)
Definition tokenAccount (account : string) : Prop :=
  In account
    ["oauth1-token"; "oauth1-secret"; "access-token"; "refresh-token";
     "expires-at"; "refresh-expires-at"].

(** The keychain [s'] agrees with [s] on every token entry of Garmin. *)
Definition sameTokens (s s' : gmap (string * string) string) : Prop :=
  forall account,
    tokenAccount account ->
    s' !! (Keychain.serviceName TOOL, account)
    = s !! (Keychain.serviceName TOOL, account).

(** What [getValidAccessToken] does once the OAuth1 tokens and the expiry
    of the refresh token have been checked. *)
Definition exchangeAgain (token secret : string) : M string :=
  bind getConsumer
    (fun consumer =>
       bind (exchangeOAuth2 consumer token secret)
         (fun _ => requireSecret TOOL "access-token")).

End Flow.

(** ** What settles a callback flow *)

Module Callback.
Import JS Mail.

(** An event that leaves a pending flow pending: a request with neither
    an error nor a code, or a stop timer. *)
Definition undecided (e : event) : Prop :=
  match e with
  | Request req => falsy (error req) = true /\ falsy (code req) = true
  | StopTimerFires => True
  | TimeoutFires => False
  end.

(** The event [e] accounts for the outcome [p] of a flow that expects
    [state] and listens on [uri]. *)
Definition decides (state uri : string) (e : event) (p : promise) : Prop :=
  match p, e with
  | Resolved c u, Request req =>
      u = uri /\ Mail.state req = Some state /\ code req = Some c
      /\ nonempty c = true /\ falsy (error req) = true
  | Rejected (OAuth2Error x), Request req =>
      error req = Some x /\ nonempty x = true
  | Rejected StateMismatch, Request req =>
      falsy (error req) = true /\ falsy (code req) = false
      /\ Mail.state req <> Some state
  | Rejected Timeout, TimeoutFires => True
  | _, _ => False
  end.

(** A flow that has not settled: it listens, its timeout is armed and no
    stop timer is pending. *)
Definition waiting (l : listener) : Prop :=
  settled l = Pending /\ listening l = true /\ timeoutArmed l = true
  /\ stopTimers l = 0%nat.

End Callback.

(** * Properties *)

(** ** The signer's percent-encoding *)

Section PercentEncode.
Import JS Garmin.

Lemma append_cons (x : ascii) (a b : string) :
  String x a +:+ b = String x (a +:+ b).
Proof. reflexivity. Qed.

Lemma append_assoc (a b c : string) : (a +:+ b) +:+ c = a +:+ (b +:+ c).
Proof.
  induction a as [|x a IH]; [reflexivity |].
  rewrite !append_cons. by rewrite IH.
Qed.

Lemma replaceReserved_app (a b : string) :
  replaceReserved (a +:+ b) = replaceReserved a +:+ replaceReserved b.
Proof.
  induction a as [|x a IH]; [done |].
  rewrite append_cons. cbn [replaceReserved].
  by rewrite IH, append_assoc.
Qed.

(** One byte through [encodeURIComponent] and the replacement. *)
Lemma percentEncode_byte (c : ascii) :
  replaceReserved
    (if alnum c || oneOf "-_.!~*'()" c
     then String c EmptyString else escapeByte c)
  = if Rfc3986.unreserved c then String c EmptyString
    else Rfc3986.escaped c.
Proof.
  destruct c as [[] [] [] [] [] [] [] []]; vm_compute; reflexivity.
Qed.

(** C8. On every string [percentEncode] is the RFC 3986 encoding: a byte
    that is a letter, a digit or one of [- . _ ~] is copied, every other
    byte is written as a percent sign and two upper-case hexadecimal
    digits, and the encoding of a string is the concatenation of the
    encodings of its bytes; so the five characters that
    [encodeURIComponent] leaves alone and the space are escaped, an
    exclamation mark as %21 and a space as %20. *)
Theorem percentEncode_rfc3986 :
  (forall s : string, percentEncode s = Rfc3986.encode s)
  /\ (forall c : ascii,
        percentEncode (String c EmptyString)
        = if Rfc3986.unreserved c then String c EmptyString
          else Rfc3986.escaped c)
  /\ (forall a b : string,
        percentEncode (a +:+ b) = percentEncode a +:+ percentEncode b)
  /\ percentEncode "!" = "%21"
  /\ percentEncode "'" = "%27"
  /\ percentEncode "(" = "%28"
  /\ percentEncode ")" = "%29"
  /\ percentEncode "*" = "%2A"
  /\ percentEncode " " = "%20"
  /\ percentEncode "Az09-._~" = "Az09-._~".
Proof.
  assert (Hall : forall s : string, percentEncode s = Rfc3986.encode s).
  { unfold percentEncode.
    induction s as [|c s IH]; [reflexivity |].
    cbn [encodeURIComponent Rfc3986.encode].
    by rewrite replaceReserved_app, percentEncode_byte, IH. }
  split; [exact Hall |].
  split.
  { intros c. rewrite Hall. cbn [Rfc3986.encode].
    destruct (Rfc3986.unreserved c); [reflexivity |].
    generalize (Rfc3986.escaped c). intros e.
    induction e as [|x e IH]; [reflexivity |].
    rewrite append_cons. by rewrite IH. }
  split; [|repeat split; reflexivity].
  intros a b. unfold percentEncode.
  assert (Happ : encodeURIComponent (a +:+ b)
                 = encodeURIComponent a +:+ encodeURIComponent b).
  { induction a as [|x a IH]; [reflexivity |].
    rewrite append_cons. cbn [encodeURIComponent].
    by rewrite IH, append_assoc. }
  by rewrite Happ, replaceReserved_app.
Qed.

End PercentEncode.

(** ** The OAuth2 client *)

Section OAuth2Client.
Import JS Effects Keychain Http.

Variable config : OAuth2Config.

Lemma pickRefreshToken_lacks data existing :
  Spec.lacksRefreshToken data ->
  pickRefreshToken (field data "refresh_token") existing = existing.
Proof.
  unfold Spec.lacksRefreshToken, field. intros H.
  destruct (data !! "refresh_token") as [[| | | |r|]|]; simpl; try done.
  by rewrite (H r eq_refl).
Qed.

(** What [parseTokenResponse] does once the access token is known to be
    a non-empty string. *)
Lemma parseTokenResponse_valid data existing access w :
  field data "access_token" = Str access ->
  nonempty access = true ->
  parseTokenResponse data existing w =
    (match pickRefreshToken (field data "refresh_token") existing with
     | Some r =>
         if nonempty r then
           Ok {| accessToken := access; refreshToken := r;
                 expiresAt :=
                   sub (add (Int (clock w))
                          (expiresIn (field data "expires_in")))
                     (Int 60) |}
         else Throw NoRefreshToken
     | None => Throw NoRefreshToken
     end, w).
Proof.
  intros Ha Hne. unfold parseTokenResponse. rewrite Ha, Hne.
  unfold bind, dateNow.
  destruct (pickRefreshToken _ _) as [r|]; [|done].
  by destruct (nonempty r).
Qed.

Lemma exchangeCode_run clientId clientSecret redirectUri code w :
  let req := exchangeRequest config clientId clientSecret redirectUri code in
  exchangeCode config clientId clientSecret redirectUri code w =
    if truthy (field (answer w req) "access_token")
    then parseTokenResponse (answer w req) None (afterFetch w req)
    else (Throw (TokenExchangeFailed (providerError (answer w req))),
          afterFetch w req).
Proof.
  intros req. unfold exchangeCode, bind, fetch. fold req.
  by destruct (truthy _).
Qed.

Lemma refreshAccessToken_run clientId clientSecret refreshToken w :
  let req := refreshRequest config clientId clientSecret refreshToken in
  refreshAccessToken config clientId clientSecret refreshToken w =
    if truthy (field (answer w req) "access_token")
    then parseTokenResponse (answer w req) (Some refreshToken)
           (afterFetch w req)
    else (Throw (RefreshFailed (providerError (answer w req))),
          afterFetch w req).
Proof.
  intros req. unfold refreshAccessToken, bind, fetch. fold req.
  by destruct (truthy _).
Qed.

(** [parseTokenResponse] reads the clock and touches nothing. *)
Lemma parseTokenResponse_world data existing w :
  (parseTokenResponse data existing w).2 = w.
Proof.
  unfold parseTokenResponse, bind, dateNow, ret, throw.
  repeat case_match; done.
Qed.

(** The outcomes of [parseTokenResponse], by the shape of the answer. *)
Lemma parseTokenResponse_cases data existing w :
  (exists access r,
      field data "access_token" = Str access
      /\ nonempty access = true
      /\ pickRefreshToken (field data "refresh_token") existing = Some r
      /\ nonempty r = true
      /\ (parseTokenResponse data existing w).1 =
           Ok {| accessToken := access; refreshToken := r;
                 expiresAt :=
                   sub (add (Int (clock w))
                          (expiresIn (field data "expires_in")))
                     (Int 60) |})
  \/ (exists access,
        field data "access_token" = Str access
        /\ nonempty access = true
        /\ falsy (pickRefreshToken (field data "refresh_token") existing)
             = true
        /\ (parseTokenResponse data existing w).1 = Throw NoRefreshToken)
  \/ ((forall access, field data "access_token" = Str access ->
                      nonempty access = false)
      /\ (parseTokenResponse data existing w).1 = Throw MissingAccessToken).
Proof.
  destruct (field data "access_token") as [| | | |access|] eqn:Ha;
    try (right; right; split; [done |];
         unfold parseTokenResponse; by rewrite Ha).
  destruct (nonempty access) eqn:Hne.
  - rewrite (parseTokenResponse_valid _ _ access) by done.
    destruct (pickRefreshToken _ _) as [r|] eqn:Hr.
    + destruct (nonempty r) eqn:Hr'.
      * left. by exists access, r.
      * right; left. exists access. simpl. by rewrite Hr'.
    + right; left. by exists access.
  - right; right. split.
    + intros a [= <-]. done.
    + unfold parseTokenResponse. by rewrite Ha, Hne.
Qed.

Lemma pickRefreshToken_None data :
  falsy (pickRefreshToken (field data "refresh_token") None) = true
  <-> Spec.lacksRefreshToken data.
Proof.
  unfold Spec.lacksRefreshToken, field.
  destruct (data !! "refresh_token") as [[| | | |r|]|]; simpl;
    try (split; [intros _ r' [=] | done]).
  destruct r as [|c r]; simpl.
  - split; [by intros _ r' [= <-] | done].
  - split; [done | intros H; by specialize (H _ eq_refl)].
Qed.

Lemma truthy_Str_nonempty v :
  truthy v = true ->
  (forall a, v = Str a -> nonempty a = false) ->
  forall a, v <> Str a.
Proof.
  intros Ht H a ->. simpl in Ht. rewrite (H a eq_refl) in Ht. done.
Qed.

(** C2, as the code has it. [exchangeCode] sends one token request and
    then either returns a token object whose [expiresAt] is the time of
    the answer plus [expires_in] minus 60 seconds, with 3600 in place of
    [expires_in] when the field is missing, is neither a number nor a
    string, or is a string that [parseInt] reads as NaN or as 0; or it
    fails. It fails with "Token exchange failed", carrying
    [error_description] (else [error], else "unknown") verbatim, exactly
    when [access_token] is missing or falsy; with "Token response missing
    valid access_token" exactly when [access_token] is truthy and not a
    string; and with "No refresh token in response and no existing token
    to preserve" exactly when [access_token] is a non-empty string and
    [refresh_token] is missing, not a string or empty. *)
Theorem exchangeCode_outcomes
    (clientId clientSecret redirectUri code : string)
    (w : world request json) :
  let req := exchangeRequest config clientId clientSecret redirectUri code in
  let data := answer w req in
  let run := exchangeCode config clientId clientSecret redirectUri code w in
  let now := clock run.2 in
  run.2 = afterFetch w req
  /\ ((exists t, run.1 = Ok t)
      \/ (exists err, run.1 = Throw (TokenExchangeFailed err))
      \/ run.1 = Throw MissingAccessToken
      \/ run.1 = Throw NoRefreshToken)
  /\ (forall t, run.1 = Ok t ->
        field data "access_token" = Str (accessToken t)
        /\ (forall k, field data "expires_in" = Num (Int k) ->
                      expiresAt t = Spec.buffered now k)
        /\ (forall s k, field data "expires_in" = Str s ->
                        parseInt s = Int k -> k <> 0 ->
                        expiresAt t = Spec.buffered now k)
        /\ (forall s, field data "expires_in" = Str s ->
                      parseInt s = NaN \/ parseInt s = Int 0 ->
                      expiresAt t = Spec.buffered now 3600)
        /\ ((forall n, field data "expires_in" <> Num n) ->
            (forall s, field data "expires_in" <> Str s) ->
            expiresAt t = Spec.buffered now 3600))
  /\ (truthy (field data "access_token") = false
      <-> exists err, run.1 = Throw (TokenExchangeFailed err))
  /\ (forall err, run.1 = Throw (TokenExchangeFailed err) ->
        err = providerError data
        /\ message (TokenExchangeFailed err)
           = "Token exchange failed: " +:+ err)
  /\ (forall d, field data "error_description" = Str d ->
                providerError data = d)
  /\ (forall e, nullish (field data "error_description") = true ->
                field data "error" = Str e -> providerError data = e)
  /\ (nullish (field data "error_description") = true ->
      nullish (field data "error") = true ->
      providerError data = "unknown")
  /\ (run.1 = Throw MissingAccessToken
      <-> truthy (field data "access_token") = true
          /\ forall a, field data "access_token" <> Str a)
  /\ (run.1 = Throw NoRefreshToken
      <-> (exists a, field data "access_token" = Str a
                     /\ nonempty a = true)
          /\ Spec.lacksRefreshToken data).
Proof.
  intros req data run now.
  assert (Hrun : run =
    if truthy (field data "access_token")
    then parseTokenResponse data None (afterFetch w req)
    else (Throw (TokenExchangeFailed (providerError data)),
          afterFetch w req)) by apply exchangeCode_run.
  assert (Hw : run.2 = afterFetch w req).
  { rewrite Hrun. destruct (truthy _); [apply parseTokenResponse_world | done]. }
  assert (Hverb :
    (forall d, field data "error_description" = Str d ->
               providerError data = d)
    /\ (forall e, nullish (field data "error_description") = true ->
                  field data "error" = Str e -> providerError data = e)
    /\ (nullish (field data "error_description") = true ->
        nullish (field data "error") = true ->
        providerError data = "unknown")).
  { unfold providerError, coalesce. repeat split.
    - by intros d ->.
    - intros e -> ->. done.
    - by intros -> ->. }
  split; [exact Hw |].
  subst now. rewrite Hw.
  destruct (truthy (field data "access_token")) eqn:Ht.
  - (* the answer has a truthy access token *)
    destruct (parseTokenResponse_cases data None (afterFetch w req))
      as [(a & r & Ha & Hne & Hr & Hr' & Hres)
         |[(a & Ha & Hne & Hr & Hres)|(Hbad & Hres)]];
      rewrite <- Hrun in Hres; rewrite Hres.
    + split; [left; eauto |].
      split.
      { intros t [= <-]. cbn [accessToken expiresAt].
        split; [done |]. unfold Spec.buffered.
        repeat split.
        - by intros k ->.
        - intros s k -> Hp Hk. cbn [expiresIn]. rewrite Hp. simpl.
          destruct (k =? 0) eqn:E; [lia | done].
        - intros s -> [Hp|Hp]; cbn [expiresIn]; by rewrite Hp.
        - intros Hn Hs.
          destruct (field data "expires_in") as [| | |n|s|]; try done.
          + by destruct (Hn n). + by destruct (Hs s). }
      split; [split; [done | by intros [? [=]]] |].
      split; [by intros ? [=] |].
      split; [apply Hverb |]. split; [apply Hverb |].
      split; [apply Hverb |].
      split; [split; [done | intros [_ H]; by destruct (H a)] |].
      split; [done |]. intros [_ Hl].
      apply pickRefreshToken_None in Hl. rewrite Hr in Hl. simpl in Hl.
      by rewrite Hr' in Hl.
    + split; [auto |].
      split; [by intros t [=] |].
      split; [split; [done | by intros [? [=]]] |].
      split; [by intros ? [=] |].
      split; [apply Hverb |]. split; [apply Hverb |].
      split; [apply Hverb |].
      split; [split; [done | intros [_ H]; by destruct (H a)] |].
      split; [intros _; split; [eauto | by apply pickRefreshToken_None]
             | done].
    + split; [auto |].
      split; [by intros t [=] |].
      split; [split; [done | by intros [? [=]]] |].
      split; [by intros ? [=] |].
      split; [apply Hverb |]. split; [apply Hverb |].
      split; [apply Hverb |].
      split; [split; [intros _; split; [done |];
                      by apply truthy_Str_nonempty | done] |].
      split; [done |]. intros [(a & Ha & Hne) _].
      rewrite (Hbad a Ha) in Hne. done.
  - (* the access token is missing or falsy *)
    rewrite Hrun. cbn [fst].
    split; [eauto |].
    split; [by intros t [=] |].
    split; [split; eauto |].
    split; [by intros err [= <-] |].
    split; [apply Hverb |]. split; [apply Hverb |].
    split; [apply Hverb |].
    split; [split; [done | by intros [[=] _]] |].
    split; [done |]. intros [(a & Ha & Hne) _].
    rewrite Ha in Ht. simpl in Ht. by rewrite Hne in Ht.
Qed.

(** C9. When the answer to the code exchange carries a valid access
    token (a non-empty string) but no refresh token, [exchangeCode] fails
    with "No refresh token in response and no existing token to
    preserve": there is no earlier refresh token to fall back on, and no
    token object is returned. *)
Theorem exchangeCode_without_refresh_token
    (clientId clientSecret redirectUri code access : string)
    (w : world request json) :
  let req := exchangeRequest config clientId clientSecret redirectUri code in
  field (answer w req) "access_token" = Str access ->
  nonempty access = true ->
  Spec.lacksRefreshToken (answer w req) ->
  exchangeCode config clientId clientSecret redirectUri code w
    = (Throw NoRefreshToken, afterFetch w req)
  /\ message NoRefreshToken
     = "No refresh token in response and no existing token to preserve".
Proof.
  intros req Ha Hne Hlack. split; [|reflexivity].
  unfold exchangeCode, bind, fetch. fold req. fold (answer w req).
  rewrite Ha. cbn [truthy negb]. rewrite Hne. cbn [negb].
  rewrite (parseTokenResponse_valid _ _ access) by done.
  by rewrite pickRefreshToken_lacks.
Qed.

(** C3. A refresh answer that carries an access token but no refresh token
    (missing, not a string, or empty) yields a token object whose refresh
    token is the one the refresh was made with; no token object ever comes
    back without a refresh token; and when neither the answer nor the
    caller has one, the operation fails. *)
Theorem refresh_preserves_refresh_token
    (clientId clientSecret existing : string) (w : world request json) :
  let req := refreshRequest config clientId clientSecret existing in
  let data := answer w req in
  let run := refreshAccessToken config clientId clientSecret existing w in
  (forall access,
      field data "access_token" = Str access ->
      nonempty access = true ->
      nonempty existing = true ->
      Spec.lacksRefreshToken data ->
      run.1 = Ok {| accessToken := access;
                    refreshToken := existing;
                    expiresAt :=
                      sub (add (Int (clock run.2))
                             (expiresIn (field data "expires_in")))
                        (Int 60) |})
  /\ (forall t, run.1 = Ok t ->
        nonempty (refreshToken t) = true
        /\ (Spec.lacksRefreshToken data -> refreshToken t = existing))
  /\ (Spec.lacksRefreshToken data ->
      nonempty existing = false ->
      exists e, run.1 = Throw e).
Proof.
  intros req data run.
  assert (Hrun : run =
    if truthy (field data "access_token")
    then parseTokenResponse data (Some existing) (afterFetch w req)
    else (Throw (RefreshFailed (providerError data)), afterFetch w req))
    by apply refreshAccessToken_run.
  split; [|split].
  - intros access Ha Hne Hex Hlack.
    rewrite Hrun, Ha. cbn [truthy]. rewrite Hne.
    rewrite (parseTokenResponse_valid _ _ access) by done.
    rewrite pickRefreshToken_lacks by done. by rewrite Hex.
  - intros t Ht. rewrite Hrun in Ht.
    destruct (truthy (field data "access_token")); [|done].
    destruct (parseTokenResponse_cases data (Some existing)
                (afterFetch w req))
      as [(a & r & Ha & Hne & Hr & Hr' & Hres)
         |[(a & _ & _ & _ & Hres)|(_ & Hres)]];
      rewrite Hres in Ht; try done.
    injection Ht as <-. cbn [refreshToken]. split; [done |].
    intros Hlack. rewrite pickRefreshToken_lacks in Hr by done.
    by injection Hr.
  - intros Hlack Hex. rewrite Hrun.
    destruct (truthy (field data "access_token")); [|by eexists].
    destruct (parseTokenResponse_cases data (Some existing)
                (afterFetch w req))
      as [(a & r & _ & _ & Hr & Hr' & _)
         |[(a & _ & _ & _ & Hres)|(_ & Hres)]];
      try (rewrite Hres; by eexists).
    rewrite pickRefreshToken_lacks in Hr by done.
    injection Hr as <-. by rewrite Hex in Hr'.
Qed.

(** *** Token lifecycle *)

Lemma loadTokens_world tool (w : world request json) :
  (loadTokens tool w).2 = w /\ exists o, (loadTokens tool w).1 = Ok o.
Proof.
  unfold loadTokens, bind, getSecret, ret. cbn.
  repeat case_match; eauto.
Qed.


Lemma refreshAccessToken_world cid cs r (w : world request json) :
  (refreshAccessToken config cid cs r w).2
    = afterFetch w (refreshRequest config cid cs r).
Proof.
  rewrite refreshAccessToken_run.
  destruct (truthy _); [apply parseTokenResponse_world | done].
Qed.

Lemma fetches_app {Req : Type} (a b : list (event Req)) :
  fetches (a ++ b) = fetches a ++ fetches b.
Proof. unfold fetches. apply omap_app. Qed.

(** The keychain after [saveTokens]. *)
Lemma saveTokens_run tool t (w : world request json) :
  (saveTokens tool t w).1 = Ok tt
  /\ secrets (saveTokens tool t w).2 =
       <[(serviceName tool, "expires-at") := numberToString (expiresAt t)]>
         (<[(serviceName tool, "refresh-token") := refreshToken t]>
            (<[(serviceName tool, "access-token") := accessToken t]>
               (secrets w)))
  /\ fetches (trace (saveTokens tool t w).2) = fetches (trace w)
  /\ clock (saveTokens tool t w).2 = clock w.
Proof.
  unfold saveTokens, bind, setSecret. cbn.
  repeat split. unfold fetches. rewrite !omap_app. cbn.
  by rewrite !app_nil_r.
Qed.

(** C1, as the code has it. With no tokens in the keychain
    [getValidAccessToken] fails with "Not logged in"; while
    [now < expiresAt] it returns the stored access token and leaves the
    world as it was, so no request is sent and nothing is written.
    Otherwise ([now >= expiresAt], or [expiresAt] is NaN) it loads the
    client credentials from [credentialsTool] if given and from [tool] if
    not; without credentials it fails before any request; with them it
    sends exactly one refresh request, and then either the refresh yields
    tokens, which are written to the keychain of [tool] before the new
    access token is returned, or the refresh fails and its error is
    passed on with the keychain unchanged. *)
Theorem getValidAccessToken_cases
    (tool : string) (credentialsTool : option string)
    (w : world request json) :
  let run := getValidAccessToken tool config credentialsTool w in
  let namespace := default tool credentialsTool in
  (loadTokens tool w = (Ok None, w) ->
   run = (Throw (NotLoggedIn tool), w))
  /\ (forall tokens, loadTokens tool w = (Ok (Some tokens), w) ->
      (Spec.fresh (clock w) (expiresAt tokens) ->
       run = (Ok (accessToken tokens), w))
      /\ (Spec.expired (clock w) (expiresAt tokens)
          \/ expiresAt tokens = NaN ->
          (loadOAuth2Credentials namespace w
             = (Throw (NoOAuth2Credentials namespace), w) ->
           run = (Throw (NoOAuth2Credentials namespace), w))
          /\ (forall creds,
                loadOAuth2Credentials namespace w = (Ok creds, w) ->
                let req :=
                  refreshRequest config (clientId creds)
                    (clientSecret creds) (refreshToken tokens) in
                let refresh :=
                  refreshAccessToken config (clientId creds)
                    (clientSecret creds) (refreshToken tokens) w in
                fetches (trace run.2) = fetches (trace w) ++ [req]
                /\ (forall refreshed, refresh.1 = Ok refreshed ->
                      run.1 = Ok (accessToken refreshed)
                      /\ secrets run.2 =
                           <[(serviceName tool, "expires-at") :=
                               numberToString (expiresAt refreshed)]>
                             (<[(serviceName tool, "refresh-token") :=
                                  refreshToken refreshed]>
                                (<[(serviceName tool, "access-token") :=
                                     accessToken refreshed]>
                                   (secrets w))))
                /\ (forall e, refresh.1 = Throw e ->
                      run.1 = Throw e /\ secrets run.2 = secrets w)))).
Proof.
  intros run namespace.
  assert (Hrun : run = getValidAccessToken tool config credentialsTool w)
    by reflexivity.
  clearbody run. unfold getValidAccessToken in Hrun.
  unfold bind at 1 in Hrun.
  split.
  - intros Hload. by rewrite Hload in Hrun.
  - intros tokens Hload. rewrite Hload in Hrun.
    unfold bind at 1 in Hrun. cbn [dateNow] in Hrun.
    split.
    + intros Hfresh. destruct (expiresAt tokens) as [e|]; [|done].
      simpl in Hfresh. cbn [lt] in Hrun.
      destruct (Z.ltb_spec (clock w) e); [done | lia].
    + intros Hstale.
      assert (Hlt : lt (Int (clock w)) (expiresAt tokens) = false).
      { destruct Hstale as [H| ->]; [|done].
        destruct (expiresAt tokens) as [e|]; [|done]. simpl in H. cbn [lt].
        destruct (Z.ltb_spec (clock w) e); [lia | done]. }
      rewrite Hlt in Hrun.
      unfold refreshAndSave in Hrun. fold namespace in Hrun.
      unfold bind at 1 in Hrun.
      split; [intros Hc; by rewrite Hc in Hrun |].
      intros creds Hc req refresh. rewrite Hc in Hrun.
      unfold bind at 1 in Hrun.
      pose proof (refreshAccessToken_world (clientId creds)
                    (clientSecret creds) (refreshToken tokens) w) as Hw.
      fold refresh req in Hw. fold refresh in Hrun.
      destruct refresh as [[refreshed|e] w1]; cbn [fst snd] in *; subst w1.
      * unfold bind at 1 in Hrun.
        destruct (saveTokens_run tool refreshed (afterFetch w req))
          as (Hok & Hsec & Hfetch & _).
        destruct (saveTokens tool refreshed (afterFetch w req))
          as [[[]|e] w2]; cbn [fst snd] in *; [|done].
        subst run. cbn [ret fst snd]. split; [|split].
        -- rewrite Hfetch. cbn [afterFetch trace].
           rewrite fetches_app. done.
        -- intros ? [= <-]. done.
        -- intros ? [=].
      * subst run. cbn [fst snd]. split; [|split].
        -- cbn [afterFetch trace]. rewrite fetches_app. done.
        -- intros ? [=].
        -- intros ? [= <-]. done.
Qed.



End OAuth2Client.

(** *** Instances and counterexamples *)

Section OAuth2ClientInstances.
Import JS Effects Keychain Http.

(** A lifetime of 1800 seconds received at second 1000. *)
Lemma exchangeCode_outcomes_witness :
  (exchangeCode Scenario.provider "id" "secret" "http://localhost:8080"
     "code" (Scenario.exchangeWorld Scenario.fullAnswer)).1
    = Ok Scenario.freshTokens
  /\ expiresAt Scenario.freshTokens = Spec.buffered 1000 1800.
Proof.
  split; [vm_compute; reflexivity |].
  destruct (exchangeCode_outcomes Scenario.provider "id" "secret"
              "http://localhost:8080" "code"
              (Scenario.exchangeWorld Scenario.fullAnswer))
    as (_ & _ & H & _).
  destruct (H Scenario.freshTokens) as (_ & Hk & _);
    [vm_compute; reflexivity |].
  apply (Hk 1800). vm_compute; reflexivity.
Defined.

(** C2 as stated fails: the answer below carries an access token, yet
    [exchangeCode] fails, and not with "Token exchange failed". *)
Lemma exchangeCode_fails_with_access_token :
  field Scenario.accessOnly "access_token" = Str "new-access"
  /\ (exchangeCode Scenario.provider "id" "secret" "http://localhost:8080"
        "code" (Scenario.exchangeWorld Scenario.accessOnly)).1
     = Throw NoRefreshToken
  /\ forall err, NoRefreshToken <> TokenExchangeFailed err.
Proof. split; [|split]; [vm_compute; reflexivity.. | done]. Qed.

Lemma exchangeCode_without_refresh_token_witness :
  exchangeCode Scenario.provider "id" "secret" "http://localhost:8080"
    "code" (Scenario.exchangeWorld Scenario.accessOnly)
    = (Throw NoRefreshToken,
       afterFetch (Scenario.exchangeWorld Scenario.accessOnly)
         (exchangeRequest Scenario.provider "id" "secret"
            "http://localhost:8080" "code")).
Proof.
  apply (exchangeCode_without_refresh_token Scenario.provider "id" "secret"
           "http://localhost:8080" "code" "new-access").
  - vm_compute; reflexivity.
  - reflexivity.
  - intros r H. vm_compute in H. discriminate H.
Defined.

Lemma refresh_preserves_refresh_token_witness :
  (refreshAccessToken Scenario.provider "id" "secret" "old-refresh"
     (Scenario.exchangeWorld Scenario.accessOnly)).1
    = Ok Scenario.refreshedTokens.
Proof.
  destruct (refresh_preserves_refresh_token Scenario.provider "id" "secret"
              "old-refresh" (Scenario.exchangeWorld Scenario.accessOnly))
    as (H & _).
  apply (H "new-access").
  - vm_compute; reflexivity.
  - reflexivity.
  - reflexivity.
  - intros r Hr. vm_compute in Hr. discriminate Hr.
Defined.

(** C1 as stated fails: the stored access token expired at second 100, it
    is second 200, the client credentials are there, one refresh request
    is sent, and the provider refuses it. No token is returned and nothing
    is written. *)
Lemma getValidAccessToken_refresh_refused :
  let w := Scenario.staleWorld Scenario.refusal in
  let run := getValidAccessToken "cal" Scenario.provider None w in
  loadTokens "cal" w = (Ok (Some Scenario.oldTokens), w)
  /\ Spec.expired (clock w) (expiresAt Scenario.oldTokens)
  /\ fetches (trace run.2)
     = [refreshRequest Scenario.provider "id" "secret" "old-refresh"]
  /\ run.1 = Throw (RefreshFailed "invalid_grant")
  /\ secrets run.2 = secrets w.
Proof.
  cbv zeta. split; [vm_compute; reflexivity |].
  split; [simpl; lia |].
  split; [vm_compute; reflexivity |].
  split; vm_compute; reflexivity.
Qed.

(** The same keychain, and a provider that answers the refresh in
    full. *)
Lemma getValidAccessToken_cases_witness :
  (getValidAccessToken "cal" Scenario.provider None
     (Scenario.staleWorld Scenario.fullAnswer)).1
  = Ok "new-access".
Proof.
  destruct (getValidAccessToken_cases Scenario.provider "cal" None
              (Scenario.staleWorld Scenario.fullAnswer)) as (_ & H).
  destruct (H Scenario.oldTokens) as (_ & Hstale);
    [vm_compute; reflexivity |].
  destruct Hstale as (_ & Hcreds); [left; simpl; lia |].
  destruct (Hcreds {| clientId := "id"; clientSecret := "secret";
                      redirectUri := "http://localhost:8080" |})
    as (_ & Hok & _); [vm_compute; reflexivity |].
  destruct (Hok {| accessToken := "new-access";
                   refreshToken := "new-refresh";
                   expiresAt := Int 1940 |}) as (Hres & _);
    [vm_compute; reflexivity |].
  exact Hres.
Defined.



End OAuth2ClientInstances.

(** ** The SSO login and the Garmin token lifecycle *)

Section SsoLogin.
Import JS Effects Keychain Garmin.

Lemma stripPrefix_Some p s rest :
  stripPrefix p s = Some rest -> s = p +:+ rest.
Proof.
  revert s. induction p as [|a p IH]; intros [|b s]; simpl; try done.
  - by intros [= <-].
  - by intros [= <-].
  - destruct (Ascii.eqb_spec a b) as [->|]; [|done].
    intros H. rewrite append_cons. by rewrite (IH _ H).
Qed.

Lemma stripPrefix_prefix p s :
  String.prefix p s = false -> stripPrefix p s = None.
Proof.
  revert s. induction p as [|a p IH]; intros [|b s]; simpl; try done.
  destruct (Ascii.ascii_dec a b) as [->|Hne].
  - rewrite Ascii.eqb_refl. apply IH.
  - intros _. by destruct (Ascii.eqb_spec a b).
Qed.

Lemma ticketRun_prefix s : exists post, s = ticketRun s +:+ post.
Proof.
  induction s as [|c s [post IH]]; [by exists EmptyString |].
  cbn [ticketRun].
  destruct (Ascii.eqb c quote || Ascii.eqb c "&"
            || negb (wsLen (String c s) =? 0)%nat).
  - by exists (String c s).
  - exists post. rewrite append_cons. by rewrite <- IH.
Qed.

(** What the ticket pattern captures stands in the body right after
    "ticket=" and is not empty. *)
Lemma matchTicket_sound s t :
  matchTicket s = Some t ->
  nonempty t = true
  /\ exists pre post, s = pre +:+ "ticket=" +:+ t +:+ post.
Proof.
  induction s as [|c s IH].
  - cbn. done.
  - cbn [matchTicket]. unfold ticketAt.
    destruct (stripPrefix "ticket=" (String c s)) as [rest|] eqn:Hp.
    + destruct (nonempty (ticketRun rest)) eqn:Hne.
      * intros [= <-]. split; [done |].
        destruct (ticketRun_prefix rest) as [post Hpost].
        exists EmptyString, post.
        apply stripPrefix_Some in Hp. rewrite Hp.
        change (EmptyString +:+ "ticket=" +:+ ticketRun rest +:+ post)
          with ("ticket=" +:+ (ticketRun rest +:+ post)).
        by rewrite <- Hpost.
      * intros H. destruct (IH H) as (? & pre & post & ->).
        split; [done |]. by exists (String c pre), post.
    + intros H. destruct (IH H) as (? & pre & post & ->).
      split; [done |]. by exists (String c pre), post.
Qed.

(** A body in which "ticket=" is followed by a character the group
    accepts has a ticket. *)
Lemma matchTicket_complete pre rest :
  nonempty (ticketRun rest) = true ->
  exists t, matchTicket (pre +:+ "ticket=" +:+ rest) = Some t.
Proof.
  intros Hne. induction pre as [|c pre [t IH]].
  - exists (ticketRun rest).
    change (EmptyString +:+ "ticket=" +:+ rest)
      with (String "t" ("icket=" +:+ rest)).
    cbn [matchTicket]. unfold ticketAt.
    change (stripPrefix "ticket=" (String "t" ("icket=" +:+ rest)))
      with (Some rest).
    cbv beta iota zeta. by rewrite Hne.
  - rewrite append_cons. cbn [matchTicket].
    destruct (ticketAt _); eauto.
Qed.

(** A body without "ticket=" has no ticket. *)
Lemma matchTicket_absent s :
  includes s "ticket=" = false -> matchTicket s = None.
Proof.
  induction s as [|c s IH]; [done |].
  cbn [includes matchTicket]. intros H.
  apply orb_false_iff in H as [Hp Hs].
  unfold ticketAt. rewrite (stripPrefix_prefix _ _ Hp). auto.
Qed.

(** Reading the ticket touches neither keychain, clock nor trace. *)
Lemma extractTicket_world loginHtml (w : world request response) :
  (extractTicket loginHtml w).2 = w.
Proof. unfold extractTicket, ret, throw. by repeat case_match. Qed.

(** C4, as the code has it. A body containing "locked" gives
    AccountLocked, whether or not it holds a ticket. Otherwise, when the
    ticket pattern matches (which it does as soon as some "ticket=" is
    followed by a character other than a double quote, an ampersand and
    white space), the login goes on with the captured ticket, even if the
    body contains "MFA"; a body with "ticket=abc123&foo=bar" gives
    "abc123". Only when the pattern does not match (in particular
    when "ticket=" is absent) does "MFA" give MfaRequired, and a body with
    none of the three gives LoginFailed. The keychain, the clock and the
    trace are left as they were. *)
Theorem extractTicket_classification
    (loginHtml : string) (w : world request response) :
  let run := extractTicket loginHtml w in
  run.2 = w
  /\ (includes loginHtml "locked" = true -> run.1 = Throw AccountLocked)
  /\ (includes loginHtml "locked" = false ->
      (forall t, matchTicket loginHtml = Some t ->
                 run.1 = Ok t
                 /\ nonempty t = true
                 /\ exists pre post,
                      loginHtml = pre +:+ "ticket=" +:+ t +:+ post)
      /\ (matchTicket loginHtml = None ->
          includes loginHtml "MFA" = true -> run.1 = Throw MfaRequired)
      /\ (matchTicket loginHtml = None ->
          includes loginHtml "MFA" = false -> run.1 = Throw LoginFailed)
      /\ (includes loginHtml "ticket=" = false ->
          includes loginHtml "MFA" = false -> run.1 = Throw LoginFailed)
      /\ (forall pre rest,
            loginHtml = pre +:+ "ticket=" +:+ rest ->
            nonempty (ticketRun rest) = true ->
            exists t, run.1 = Ok t))
  /\ (extractTicket "https://host/?ticket=abc123&foo=bar" w).1
     = Ok "abc123".
Proof.
  intros run. subst run. unfold extractTicket.
  split; [|split; [|split]].
  - apply extractTicket_world.
  - by intros ->.
  - intros ->. split; [|split; [|split; [|split]]].
    + intros t Ht. rewrite Ht. split; [done |].
      by apply matchTicket_sound in Ht.
    + by intros -> ->.
    + by intros -> ->.
    + intros Ht ->. by rewrite (matchTicket_absent _ Ht).
    + intros pre rest -> Hne.
      destruct (matchTicket_complete pre rest Hne) as [t ->]. by exists t.
  - reflexivity.
Qed.

(** *** Token lifecycle *)

Lemma exchangeOAuth2_run consumer token secret
    (w : world request response) :
  let req := exchangeRequest consumer token secret in
  let res := answer w req in
  let w1 := afterFetch w req in
  let data := jsonExchange res in
  let service := serviceName TOOL in
  exchangeOAuth2 consumer token secret w =
    if ok res then
      (Ok tt,
       afterSet
         (afterSet
            (afterSet
               (afterSet w1 service "access-token" (access_token data))
               service "refresh-token" (refresh_token data))
            service "expires-at"
            (numberToString
               (sub (add (Int (clock w1)) (expires_in data)) (Int 60))))
         service "refresh-expires-at"
         (numberToString
            (sub (add (Int (clock w1)) (refresh_token_expires_in data))
               (Int 60))))
    else (Throw (OAuth2ExchangeFailed (status res) (text res)), w1).
Proof.
  cbv zeta. unfold exchangeOAuth2, bind, fetch.
  by destruct (ok _).
Qed.

(** [getConsumer] sends at most one request, for the consumer file. *)
Lemma getConsumer_fetches (w : world request response) :
  fetches (trace (getConsumer w).2) = fetches (trace w)
  \/ fetches (trace (getConsumer w).2)
     = fetches (trace w) ++ [get CONSUMER_URL].
Proof.
  assert (Hfetch :
    fetches (trace (fetchConsumer w).2) = fetches (trace w)
    \/ fetches (trace (fetchConsumer w).2)
       = fetches (trace w) ++ [get CONSUMER_URL]).
  { unfold fetchConsumer, bind, fetch, setSecret, ret, throw.
    destruct (ok _); cbn [fst snd negb afterSet afterFetch trace];
      right; unfold fetches; rewrite ?omap_app; cbn;
      by rewrite ?app_nil_r. }
  unfold getConsumer, bind, getSecret, requireSecret, bind, getSecret,
    ret, throw.
  cbn [fst snd].
  repeat case_match; simplify_eq; cbn [fst snd]; auto.
Qed.

(** C6, as the code has it. With an access token in the keychain: while
    [now < expiresAt] the stored access token is returned and nothing is
    sent, whatever [refreshExpiresAt] is. Once [expiresAt <= now], with
    the OAuth1 token and secret in the keychain: if
    [refreshExpiresAt <= now] the call fails with "Refresh token expired.
    Run: garmin login" and the world is as before, so no request was
    sent; if [now < refreshExpiresAt] and the consumer credentials are
    obtained, exactly one OAuth1-to-OAuth2 exchange request is sent,
    preceded at most by the request for the consumer file; when its answer
    is ok the new access token, the new refresh token and the two new
    expiries are written and the new access token, read back from the
    keychain, is returned, otherwise the call fails with "OAuth2 exchange
    failed". *)
Theorem garmin_getValidAccessToken_cases
    (w : world request response) (access : string) :
  let stored account := JS.trim <$> secrets w !! (serviceName TOOL, account) in
  let expiresAt := parseInt (default "0" (stored "expires-at")) in
  let refreshExpiresAt :=
    parseInt (default "0" (stored "refresh-expires-at")) in
  let run := getValidAccessToken w in
  stored "access-token" = Some access ->
  nonempty access = true ->
  (Spec.fresh (clock w) expiresAt -> run = (Ok access, w))
  /\ (Spec.expired (clock w) expiresAt ->
      forall token secret,
        stored "oauth1-token" = Some token -> nonempty token = true ->
        stored "oauth1-secret" = Some secret -> nonempty secret = true ->
        (Spec.expired (clock w) refreshExpiresAt ->
         run = (Throw RefreshTokenExpired, w))
        /\ (Spec.fresh (clock w) refreshExpiresAt ->
            forall consumer w1,
              getConsumer w = (Ok consumer, w1) ->
              let req := exchangeRequest consumer token secret in
              let res := answer w1 req in
              let now' := clock (afterFetch w1 req) in
              fetches (trace run.2) = fetches (trace w1) ++ [req]
              /\ (fetches (trace w1) = fetches (trace w)
                  \/ fetches (trace w1)
                     = fetches (trace w) ++ [get CONSUMER_URL])
              /\ (ok res = true ->
                  run.1 = Ok (trim (access_token (jsonExchange res)))
                  /\ secrets run.2 !! (serviceName TOOL, "access-token")
                     = Some (access_token (jsonExchange res))
                  /\ secrets run.2 !! (serviceName TOOL, "refresh-token")
                     = Some (refresh_token (jsonExchange res))
                  /\ secrets run.2 !! (serviceName TOOL, "expires-at")
                     = Some (numberToString
                               (sub (add (Int now')
                                       (expires_in (jsonExchange res)))
                                  (Int 60)))
                  /\ secrets run.2
                       !! (serviceName TOOL, "refresh-expires-at")
                     = Some (numberToString
                               (sub (add (Int now')
                                       (refresh_token_expires_in
                                          (jsonExchange res)))
                                  (Int 60))))
              /\ (ok res = false ->
                  run = (Throw (OAuth2ExchangeFailed (status res)
                                  (text res)),
                         afterFetch w1 req)))).
Proof.
  intros stored expiresAt refreshExpiresAt run Ha Hna.
  assert (Hrun : run = getValidAccessToken w) by reflexivity.
  clearbody run. unfold getValidAccessToken in Hrun.
  unfold bind at 1 in Hrun. unfold getSecret at 1 in Hrun.
  cbn [fst snd] in Hrun. fold (stored "access-token") in Hrun.
  rewrite Ha, Hna in Hrun.
  unfold bind at 1 in Hrun. unfold getSecret at 1 in Hrun.
  cbn [fst snd] in Hrun. fold (stored "expires-at") in Hrun.
  fold expiresAt in Hrun.
  unfold bind at 1 in Hrun. cbn [dateNow] in Hrun.
  split.
  - intros Hfresh. destruct expiresAt as [e|]; [|done].
    simpl in Hfresh. cbn [lt] in Hrun.
    destruct (Z.ltb_spec (clock w) e); [done | lia].
  - intros Hexp token secret Ht Hnt Hs Hns.
    assert (Hlt : lt (Int (clock w)) expiresAt = false).
    { destruct expiresAt as [e|]; [|done]. simpl in Hexp. cbn [lt].
      destruct (Z.ltb_spec (clock w) e); [lia | done]. }
    rewrite Hlt in Hrun. unfold refreshWithOAuth1 in Hrun.
    unfold bind at 1 in Hrun. unfold getSecret at 1 in Hrun.
    cbn [fst snd] in Hrun. fold (stored "oauth1-token") in Hrun.
    unfold bind at 1 in Hrun. unfold getSecret at 1 in Hrun.
    cbn [fst snd] in Hrun. fold (stored "oauth1-secret") in Hrun.
    rewrite Ht, Hs, Hnt, Hns in Hrun. cbn [andb] in Hrun.
    unfold bind at 1 in Hrun. unfold getSecret at 1 in Hrun.
    cbn [fst snd] in Hrun. fold (stored "refresh-expires-at") in Hrun.
    fold refreshExpiresAt in Hrun.
    split.
    + intros Hdead. destruct refreshExpiresAt as [r|]; [|done].
      simpl in Hdead. cbn [ge] in Hrun.
      destruct (Z.leb_spec r (clock w)); [done | lia].
    + intros Hlive consumer w1 Hc req res now'.
      assert (Hge : ge (Int (clock w)) refreshExpiresAt = false).
      { destruct refreshExpiresAt as [r|]; [|done]. simpl in Hlive.
        cbn [ge]. destruct (Z.leb_spec r (clock w)); [lia | done]. }
      rewrite Hge in Hrun. unfold bind at 1 in Hrun. rewrite Hc in Hrun.
      unfold bind at 1 in Hrun.
      pose proof (exchangeOAuth2_run consumer token secret w1) as Hx.
      cbv zeta in Hx. fold req res in Hx. rewrite Hx in Hrun.
      pose proof (getConsumer_fetches w) as Hcf. rewrite Hc in Hcf.
      cbn [snd] in Hcf.
      destruct (ok res) eqn:Hok.
      * unfold requireSecret, bind, getSecret in Hrun.
        cbn [fst snd afterSet secrets] in Hrun.
        rewrite !lookup_insert_ne, lookup_insert_eq in Hrun by done.
        cbn [fmap option_fmap option_map] in Hrun.
        subst run. cbn [ret fst snd afterSet trace secrets].
        split; [|split; [done |split; [|done]]].
        -- cbn [afterFetch trace]. unfold fetches. rewrite !omap_app. cbn.
           by rewrite !app_nil_r.
        -- intros _. split; [done |].
           split.
           { rewrite !lookup_insert_ne by done. apply lookup_insert_eq. }
           split.
           { rewrite !lookup_insert_ne by done. apply lookup_insert_eq. }
           split; [|apply lookup_insert_eq].
           rewrite lookup_insert_ne by done. apply lookup_insert_eq.
      * subst run. cbn [fst snd afterFetch trace].
        split; [|split; [done |split; [done |done]]].
        unfold fetches. rewrite !omap_app. cbn. done.
Qed.

(** *** Order of the effects of a login *)

Lemma fetchConsumer_trace (w : world request response) :
  exists evs,
    trace (fetchConsumer w).2 = trace w ++ evs
    /\ Forall Spec.beforeExchange evs.
Proof.
  unfold fetchConsumer, bind, fetch, setSecret, ret, throw.
  destruct (ok _); cbn [negb fst snd afterSet afterFetch trace].
  - eexists [_; _; _]. rewrite <- !app_assoc. split; [reflexivity |].
    repeat constructor. by intros H.
  - eexists [_]. split; [reflexivity |]. repeat constructor. by intros H.
Qed.

Lemma getConsumer_trace (w : world request response) :
  exists evs,
    trace (getConsumer w).2 = trace w ++ evs
    /\ Forall Spec.beforeExchange evs.
Proof.
  assert (Hnil : exists evs : list (event request),
            trace w = trace w ++ evs /\ Forall Spec.beforeExchange evs).
  { exists []. by rewrite app_nil_r. }
  pose proof (fetchConsumer_trace w) as Hfetch.
  unfold getConsumer, bind, getSecret, requireSecret, bind, getSecret,
    ret, throw.
  cbn [fst snd].
  repeat case_match; simplify_eq; cbn [fst snd]; auto.
Qed.

Lemma getConsumer_error (w : world request response) e :
  (getConsumer w).1 = Throw e ->
  forall st body, e <> OAuth2ExchangeFailed st body.
Proof.
  unfold getConsumer, fetchConsumer, bind, getSecret, requireSecret, bind,
    getSecret, fetch, setSecret, ret, throw.
  cbn [fst snd].
  repeat case_match; simplify_eq; cbn [fst snd]; by intros [= <-].
Qed.

Lemma extractTicket_error loginHtml (w : world request response) e :
  (extractTicket loginHtml w).1 = Throw e ->
  forall st body, e <> OAuth2ExchangeFailed st body.
Proof.
  unfold extractTicket, ret, throw.
  repeat case_match; cbn [fst]; by intros [= <-].
Qed.

Lemma extractTicket_Ok loginHtml (w : world request response) t :
  (extractTicket loginHtml w).1 = Ok t ->
  includes loginHtml "locked" = false /\ matchTicket loginHtml = Some t.
Proof.
  unfold extractTicket, ret, throw.
  destruct (includes loginHtml "locked"); [done |].
  destruct (matchTicket loginHtml) as [t'|].
  - cbn [fst]. by intros [= ->].
  - by destruct (includes loginHtml "MFA").
Qed.

(** The two ways a login can go: it stops before the exchange, with
    another error than that of the exchange; or it gets the consumer
    credentials, a CSRF token, a ticket and, from the answer to the ticket
    exchange, the OAuth1 token and secret, writes these two, sends the
    exchange request, and then either writes the OAuth2 entries or fails
    with the error of the exchange. *)
Lemma login_trace email password (w : world request response) :
  let run := login email password w in
  let service := serviceName TOOL in
  (exists new,
      trace run.2 = trace w ++ new
      /\ Forall Spec.beforeExchange new
      /\ forall st body, run.1 <> Throw (OAuth2ExchangeFailed st body))
  \/ (exists consumer csrf ticket token secret before post,
        let pre :=
          before
          ++ [Fetch (Flow.credentials w email password csrf);
              Fetch (preauthorizedRequest consumer ticket)] in
        trace run.2
        = trace w ++ pre
          ++ [SetSecret service "oauth1-token" token;
              SetSecret service "oauth1-secret" secret;
              Fetch (exchangeRequest consumer token secret)]
          ++ post
        /\ Forall Spec.beforeExchange pre
        /\ Forall Spec.keepsOAuth1 post
        /\ Flow.reachedTicket w email password csrf consumer ticket
        /\ Flow.servedOAuth1 w email password csrf consumer ticket token
             secret
        /\ secrets run.2 !! (service, "oauth1-token") = Some token
        /\ secrets run.2 !! (service, "oauth1-secret") = Some secret
        /\ (run.1 = Ok tt
            \/ (post = []
                /\ exists st body,
                    run.1 = Throw (OAuth2ExchangeFailed st body)))).
Proof.
  intros run service.
  assert (Hrun : run = login email password w) by reflexivity.
  clearbody run.
  cbv beta iota zeta delta [login bind fetch ret throw setSecret] in Hrun.
  destruct (getConsumer_trace w) as (evs & Hevs & Hfa).
  pose proof (getConsumer_error w) as Hce.
  destruct (getConsumer w) as [[consumer|e] w0] eqn:Hgc;
    cbn [fst snd] in Hevs, Hce.
  2: { left. exists evs. subst run. cbn [fst snd].
       split; [done |]. split; [done |].
       intros st body [= ->]. by eapply Hce. }
  clear Hce.
  fold Flow.embedRequest in Hrun.
  set (embed := Flow.embedRequest) in *.
  set (w1 := afterFetch w0 embed) in *.
  set (cookies := extractCookies (answer w0 embed)) in *.
  fold (Flow.signinPageRequest cookies) in Hrun.
  set (csrfReq := Flow.signinPageRequest cookies) in *.
  set (w2 := afterFetch w1 csrfReq) in *.
  assert (Hpre2 : trace w2 = trace w ++ evs ++ [Fetch embed; Fetch csrfReq]).
  { subst w2 w1. cbn [afterFetch trace]. rewrite Hevs.
    by rewrite <- !app_assoc. }
  destruct (matchCsrf (text (answer w1 csrfReq))) as [csrf|] eqn:Hcsrf.
  2: { left. eexists. subst run. cbn [fst snd].
       split; [exact Hpre2 |]. split; [|done].
       apply Forall_app. split; [done |].
       repeat constructor; intros H; vm_compute in H; discriminate H. }
  fold (Flow.credentialsRequest
          (mergeCookies cookies (extractCookies (answer w1 csrfReq)))
          email password csrf) in Hrun.
  set (loginReq := Flow.credentialsRequest _ email password csrf) in *.
  set (w3 := afterFetch w2 loginReq) in *.
  assert (Hpre3 : trace w3
            = trace w ++ evs ++ [Fetch embed; Fetch csrfReq; Fetch loginReq]).
  { subst w3. cbn [afterFetch trace]. rewrite Hpre2.
    by rewrite <- !app_assoc. }
  assert (Hfa3 : Forall Spec.beforeExchange
                   (evs ++ [Fetch embed; Fetch csrfReq; Fetch loginReq])).
  { apply Forall_app. split; [done |].
    repeat constructor; intros H; vm_compute in H; discriminate H. }
  pose proof (extractTicket_world (text (answer w2 loginReq)) w3) as Hsame.
  pose proof (extractTicket_error (text (answer w2 loginReq)) w3) as Hte.
  pose proof (extractTicket_Ok (text (answer w2 loginReq)) w3) as Htk.
  destruct (extractTicket (text (answer w2 loginReq)) w3)
    as [[ticket|e] w3']; cbn [fst snd] in Hsame, Hte, Htk; subst w3'.
  2: { left. eexists. subst run. cbn [fst snd].
       split; [done |]. split; [done |].
       intros st body [= ->]. by eapply Hte. }
  clear Hte. destruct (Htk ticket eq_refl) as (Hlocked & Hmatch). clear Htk.
  set (preauth := preauthorizedRequest consumer ticket) in *.
  set (w4 := afterFetch w3 preauth) in *.
  assert (Hpre4 : trace w4
            = trace w ++ evs ++ [Fetch embed; Fetch csrfReq; Fetch loginReq;
                                 Fetch preauth]).
  { subst w4. cbn [afterFetch trace]. rewrite Hpre3.
    by rewrite <- !app_assoc. }
  assert (Hfa4 : Forall Spec.beforeExchange
                   (evs ++ [Fetch embed; Fetch csrfReq; Fetch loginReq;
                            Fetch preauth])).
  { apply Forall_app. split; [done |].
    repeat constructor; try (intros H; vm_compute in H; discriminate H). }
  destruct (ok (answer w3 preauth)); cbn [negb] in Hrun.
  2: { left. eexists. subst run. cbn [fst snd]. by repeat split. }
  destruct (searchParamsGet _ "oauth_token") as [token|] eqn:Htok.
  2: { left. eexists. subst run. cbn [fst snd]. by repeat split. }
  destruct (searchParamsGet _ "oauth_token_secret") as [secret|] eqn:Hsec.
  2: { left. eexists. subst run. cbn [fst snd]. by repeat split. }
  destruct (nonempty token && nonempty secret) eqn:Hne.
  2: { left. eexists. subst run. cbn [fst snd]. by repeat split. }
  apply andb_true_iff in Hne as (Hnt & Hns).
  assert (Hreached : Flow.reachedTicket w email password csrf consumer
                       ticket).
  { unfold Flow.reachedTicket, Flow.loginPage, Flow.credentials,
      Flow.afterSigninPage, Flow.signinPage, Flow.afterEmbed, Flow.jar.
    rewrite Hgc. cbn [fst snd]. done. }
  assert (Hserved : Flow.servedOAuth1 w email password csrf consumer ticket
                      token secret).
  { unfold Flow.servedOAuth1, Flow.ticketAnswer, Flow.afterCredentials,
      Flow.credentials, Flow.afterSigninPage, Flow.signinPage,
      Flow.afterEmbed, Flow.jar.
    rewrite Hgc. cbn [fst snd]. done. }
  assert (Hcred : Flow.credentials w email password csrf = loginReq).
  { unfold Flow.credentials, Flow.signinPage, Flow.afterEmbed, Flow.jar.
    rewrite Hgc. reflexivity. }
  right. exists consumer, csrf, ticket, token, secret.
  exists (evs ++ [Fetch embed; Fetch csrfReq]). rewrite Hcred.
  assert (Hshape : evs ++ [Fetch embed; Fetch csrfReq; Fetch loginReq;
                           Fetch preauth]
                   = (evs ++ [Fetch embed; Fetch csrfReq])
                     ++ [Fetch loginReq; Fetch preauth])
    by (by rewrite <- app_assoc).
  rewrite Hshape in Hpre4, Hfa4.
  pose proof (exchangeOAuth2_run consumer token secret
                (afterSet (afterSet w4 service "oauth1-token" token)
                   service "oauth1-secret" secret)) as Hx.
  cbv zeta in Hx. fold service in Hx, Hrun. rewrite Hx in Hrun. clear Hx.
  destruct (ok _).
  - eexists [_; _; _; _]. subst run. cbv zeta.
    cbn [fst snd afterSet afterFetch trace secrets]. rewrite Hpre4.
    split; [by rewrite <- !app_assoc |].
    split; [done |].
    split; [repeat constructor; done |].
    split; [done |]. split; [done |].
    split; [|split; [|by left]].
    + rewrite !lookup_insert_ne by done. apply lookup_insert_eq.
    + rewrite !lookup_insert_ne by done. apply lookup_insert_eq.
  - exists []. subst run. cbv zeta.
    cbn [fst snd afterSet afterFetch trace secrets]. rewrite Hpre4.
    split; [by rewrite <- !app_assoc |].
    split; [done |].
    split; [constructor |].
    split; [done |]. split; [done |].
    split; [|split; [|right; eauto]].
    + rewrite lookup_insert_ne by done. apply lookup_insert_eq.
    + apply lookup_insert_eq.
Qed.

(** C7. In every run of [login], if the OAuth1-to-OAuth2 exchange request
    is sent at all, then the login had got the consumer credentials, a
    CSRF token from the sign-in page and a ticket from the answer to the
    credentials; the OAuth1 token and secret of the exchange request are
    those served in the answer to the ticket exchange of this run, both
    non-empty; they were written to the keychain right after the ticket
    exchange and just before the exchange request; no exchange request was
    sent earlier, and whatever follows only writes other entries. When the
    run fails with the error of the exchange, that request is the last
    effect of the run, and the keychain holds the token and the secret
    that were served. No run of [login] deletes a keychain entry. *)
Theorem login_persists_oauth1_before_exchange
    (email password : string) (w : world request response) :
  let run := login email password w in
  let service := serviceName TOOL in
  exists new,
    trace run.2 = trace w ++ new
    /\ (forall service' account,
          (DeleteSecret service' account : event request) ∉ new)
    /\ (forall req,
          Fetch req ∈ new -> url req = exchangeUrl ->
          exists consumer csrf ticket token secret before post,
            let pre :=
              before
              ++ [Fetch (Flow.credentials w email password csrf);
                  Fetch (preauthorizedRequest consumer ticket)] in
            req = exchangeRequest consumer token secret
            /\ new = pre
                     ++ [SetSecret service "oauth1-token" token;
                         SetSecret service "oauth1-secret" secret;
                         Fetch req]
                     ++ post
            /\ Forall Spec.beforeExchange pre
            /\ Forall Spec.keepsOAuth1 post
            /\ Flow.reachedTicket w email password csrf consumer ticket
            /\ Flow.servedOAuth1 w email password csrf consumer ticket
                 token secret
            /\ secrets run.2 !! (service, "oauth1-token") = Some token
            /\ secrets run.2 !! (service, "oauth1-secret") = Some secret)
    /\ (forall st body,
          run.1 = Throw (OAuth2ExchangeFailed st body) ->
          exists consumer csrf ticket token secret pre,
            new = pre
                  ++ [SetSecret service "oauth1-token" token;
                      SetSecret service "oauth1-secret" secret;
                      Fetch (exchangeRequest consumer token secret)]
            /\ Forall Spec.beforeExchange pre
            /\ Flow.reachedTicket w email password csrf consumer ticket
            /\ Flow.servedOAuth1 w email password csrf consumer ticket
                 token secret
            /\ secrets run.2 !! (service, "oauth1-token") = Some token
            /\ secrets run.2 !! (service, "oauth1-secret") = Some secret).
Proof.
  intros run service.
  destruct (login_trace email password w)
    as [(new & Htrace & Hfa & Hnot)
       |(consumer & csrf & ticket & token & secret & before & post
         & Htrace & Hpre & Hpost & Hreached & Hserved & Hkt & Hks & Hend)];
    fold run service in Htrace.
  - exists new. split; [done |]. split; [|split].
    + intros service' account Hd.
      by apply (proj1 (Forall_forall _ _) Hfa) in Hd.
    + intros req Hreq Hurl.
      by apply (proj1 (Forall_forall _ _) Hfa) in Hreq.
    + intros st body Hfail. by destruct (Hnot st body).
  - fold run service in Hkt, Hks, Hend. cbv zeta in Htrace, Hpre.
    eexists. split; [exact Htrace |]. split; [|split].
    + intros service' account Hd.
      apply elem_of_app in Hd as [Hd|Hd];
        [by apply (proj1 (Forall_forall _ _) Hpre) in Hd |].
      apply elem_of_app in Hd as [Hd|Hd];
        [|by apply (proj1 (Forall_forall _ _) Hpost) in Hd].
      repeat (apply elem_of_cons in Hd as [Hd|Hd]; [done |]).
      by apply elem_of_nil in Hd.
    + intros req Hreq Hurl.
      apply elem_of_app in Hreq as [Hreq|Hreq];
        [by apply (proj1 (Forall_forall _ _) Hpre) in Hreq |].
      apply elem_of_app in Hreq as [Hreq|Hreq];
        [|by apply (proj1 (Forall_forall _ _) Hpost) in Hreq].
      assert (req = exchangeRequest consumer token secret) as ->.
      { repeat (apply elem_of_cons in Hreq as [Hreq|Hreq];
                [by simplify_eq |]).
        by apply elem_of_nil in Hreq. }
      exists consumer, csrf, ticket, token, secret, before, post. done.
    + intros st body Hfail.
      destruct Hend as [Hok | (-> & _)]; [by rewrite Hok in Hfail |].
      exists consumer, csrf, ticket, token, secret. eexists.
      by rewrite app_nil_r.
Qed.

End SsoLogin.

Section SsoLoginInstances.
Import JS Effects Keychain Garmin.

(** C4 as stated fails: this body has the MFA marker and no lock marker,
    and the login goes on with the ticket instead of failing with
    MfaRequired. *)
Lemma extractTicket_mfa_with_ticket :
  includes "MFA page ticket=abc123&foo=bar" "MFA" = true
  /\ includes "MFA page ticket=abc123&foo=bar" "locked" = false
  /\ (extractTicket "MFA page ticket=abc123&foo=bar"
        (Scenario.garminWorld ∅ 0)).1
     = Ok "abc123".
Proof. repeat split; vm_compute; reflexivity. Qed.

Lemma extractTicket_classification_witness :
  (extractTicket "Your account is locked. ticket=abc123"
     (Scenario.garminWorld ∅ 0)).1
  = Throw AccountLocked.
Proof.
  destruct (extractTicket_classification
              "Your account is locked. ticket=abc123"
              (Scenario.garminWorld ∅ 0)) as (_ & H & _).
  apply H. vm_compute; reflexivity.
Defined.

(** C6 as stated fails: the access token expired at second 999, the
    refresh token is good until second 87400, the clock is at 1000 and the
    OAuth1 token and secret are stored; the one exchange request is sent,
    the endpoint answers 503, and the call fails instead of returning a
    new access token. The keychain is as it was. *)
Lemma garmin_refresh_exchange_refused :
  let w := Scenario.staleAccessDown in
  let run := getValidAccessToken w in
  (trim <$> secrets w !! (serviceName TOOL, "expires-at")) = Some "999"
  /\ (trim <$> secrets w !! (serviceName TOOL, "refresh-expires-at"))
     = Some "87400"
  /\ Spec.expired (clock w) (parseInt "999")
  /\ Spec.fresh (clock w) (parseInt "87400")
  /\ run.1 = Throw (OAuth2ExchangeFailed 503 "down")
  /\ fetches (trace run.2)
     = [exchangeRequest Scenario.someConsumer "oauth1" "oauth1-secret"]
  /\ secrets run.2 = secrets w.
Proof.
  repeat split; try (vm_compute; reflexivity); vm_compute; by intros [=].
Qed.

(** The scenario of the specification: [expiresAt = now - 1] and
    [refreshExpiresAt = now + 86400]. *)
Lemma garmin_getValidAccessToken_cases_witness :
  (getValidAccessToken Scenario.staleAccess).1 = Ok "new-access"
  /\ fetches (trace (getValidAccessToken Scenario.staleAccess).2)
     = [exchangeRequest
          {| consumer_key := "key"; consumer_secret := "secret" |}
          "oauth1" "oauth1-secret"].
Proof.
  destruct (garmin_getValidAccessToken_cases Scenario.staleAccess
              "old-access") as (_ & H);
    [vm_compute; reflexivity | reflexivity |].
  destruct (H ltac:(by vm_compute) "oauth1" "oauth1-secret")
    as (_ & Hlive);
    [vm_compute; reflexivity | reflexivity
    | vm_compute; reflexivity | reflexivity |].
  destruct (Hlive ltac:(by vm_compute)
              {| consumer_key := "key"; consumer_secret := "secret" |}
              Scenario.staleAccess)
    as (Hfetch & _ & Hok & _); [vm_compute; reflexivity |].
  split; [|exact Hfetch].
  destruct Hok as (Hres & _); [reflexivity |]. exact Hres.
Defined.

(** A login that gets its ticket and its OAuth1 token and then finds the
    exchange endpoint down. *)
Lemma login_exchange_down :
  (login "me@example.org" "pw" (Scenario.loginWorld Scenario.exchangeDown)).1
  = Throw (OAuth2ExchangeFailed 503 "down")
  /\ fetches
       (trace (login "me@example.org" "pw"
                 (Scenario.loginWorld Scenario.exchangeDown)).2)
     = [get CONSUMER_URL;
        {| method := "GET"; url := embedUrl; userAgent := Some UA;
           cookie := None; contentType := None;
           authorizationHeader := None; body := None;
           redirectManual := true |};
        {| method := "GET"; url := signinUrl; userAgent := Some UA;
           cookie := Some "SESSION=abc"; contentType := None;
           authorizationHeader := None; body := None;
           redirectManual := false |};
        {| method := "POST"; url := signinUrl; userAgent := Some UA;
           cookie := Some "SESSION=abc; GARMIN-SSO=1";
           contentType := Some "application/x-www-form-urlencoded";
           authorizationHeader := None;
           body :=
             Some "username=me%40example.org&password=pw&embed=true&_csrf=csrf-1";
           redirectManual := true |};
        preauthorizedRequest Scenario.someConsumer "ST-0123";
        exchangeRequest Scenario.someConsumer "T1" "S1"].
Proof. split; vm_compute; reflexivity. Qed.

(** On that run the keychain keeps the OAuth1 token and secret that the
    ticket exchange served. *)
Lemma login_persists_oauth1_before_exchange_witness :
  let w := Scenario.loginWorld Scenario.exchangeDown in
  let run := login "me@example.org" "pw" w in
  Flow.servedOAuth1 w "me@example.org" "pw" "csrf-1" Scenario.someConsumer
    "ST-0123" "T1" "S1"
  /\ secrets run.2 !! (serviceName TOOL, "oauth1-token") = Some "T1"
  /\ secrets run.2 !! (serviceName TOOL, "oauth1-secret") = Some "S1".
Proof.
  intros w run.
  destruct (login_persists_oauth1_before_exchange "me@example.org" "pw" w)
    as (new & Htrace & _ & Hreq & _).
  destruct (Hreq (exchangeRequest Scenario.someConsumer "T1" "S1"))
    as (consumer & csrf & ticket & token & secret & before & post
        & Heq & _ & _ & _ & Hreached & Hserved & Hkt & Hks).
  - vm_compute in Htrace. subst new.
    apply list_elem_of_In. vm_compute. tauto.
  - reflexivity.
  - injection Heq as _ _ <- <-.
    destruct Hreached as (Hc & Hcsrf & _ & Hticket).
    assert (consumer = Scenario.someConsumer) as ->
      by (vm_compute in Hc; by injection Hc).
    assert (csrf = "csrf-1") as ->
      by (vm_compute in Hcsrf; by injection Hcsrf).
    assert (ticket = "ST-0123") as ->
      by (vm_compute in Hticket; by injection Hticket).
    by repeat split.
Defined.

End SsoLoginInstances.

(** ** The callback listener *)

Section CallbackListener.
Import JS Mail.

Variable state : string.

Lemma step_settled e l :
  settled l <> Pending -> settled (step state e l).2 = settled l.
Proof.
  intros Hs. destruct e as [req| |]; cbn [step].
  - destruct (listening l); [|done].
    unfold handler.
    repeat case_match; simplify_eq; cbn [snd settled settleAndStopLater];
      try done; unfold resolve, reject; by destruct (settled l).
  - by destruct (stopTimers l).
  - destruct (timeoutArmed l); [|done]. cbn [snd settled].
    unfold reject. by destruct (settled l).
Qed.

(** Once settled, the promise keeps its value through any sequence of
    requests and timers. *)
Lemma run_settled events l :
  settled l <> Pending -> settled (run state events l).2 = settled l.
Proof.
  revert l. induction events as [|e events IH]; intros l Hs; [done |].
  cbn [run].
  pose proof (step_settled e l Hs) as Hstep.
  destruct (step state e l) as [p l']. cbn [snd] in Hstep.
  specialize (IH l'). rewrite Hstep in IH. specialize (IH Hs).
  destruct (run state events l') as [ps l'']. done.
Qed.

(** C5, as the code has it. A request whose state differs from the
    expected one never resolves the flow, and with a code and no error
    parameter it rejects a pending flow as a state mismatch. A request
    with the expected state, a non-empty code and no error parameter
    resolves a pending flow with that code and the redirect URI. Once the
    flow is resolved, no sequence of requests and timers alters the
    resolved value. The page answered depends on the request alone: it is
    the waiting page exactly when the request has neither an error nor a
    code, whether or not the flow is already resolved. *)
Theorem callback_listener (l : listener) (req : callback) :
  (Mail.state req <> Some state ->
   (forall c u, settled (handler state req l).2 = Resolved c u ->
                settled l = Resolved c u)
   /\ (falsy (error req) = true -> falsy (code req) = false ->
       settled l = Pending ->
       settled (handler state req l).2 = Rejected StateMismatch
       /\ (handler state req l).1 = MismatchPage))
  /\ (forall c,
        Mail.state req = Some state -> code req = Some c ->
        nonempty c = true -> falsy (error req) = true ->
        settled l = Pending ->
        settled (handler state req l).2 = Resolved c (redirectUri l)
        /\ (handler state req l).1 = AuthenticatedPage)
  /\ (forall c u events,
        settled l = Resolved c u ->
        settled (run state events l).2 = Resolved c u)
  /\ (forall l', (handler state req l').1 = (handler state req l).1)
  /\ ((handler state req l).1 = WaitingPage
      <-> falsy (error req) = true /\ falsy (code req) = true).
Proof.
  split; [|split; [|split; [|split]]].
  - intros Hstate. split.
    + intros c u. unfold handler.
      destruct (falsy (error req)); cbn [negb].
      * destruct (falsy (code req)); [done |].
        rewrite bool_decide_eq_false_2 by done.
        cbn [negb snd settled settleAndStopLater]. unfold reject.
        by destruct (settled l).
      * cbn [snd settled settleAndStopLater]. unfold reject.
        by destruct (settled l).
    + intros He Hc Hp. unfold handler. rewrite He, Hc. cbn [negb].
      rewrite bool_decide_eq_false_2 by done.
      cbn [negb fst snd settled settleAndStopLater]. by rewrite Hp.
  - intros c Hstate Hc Hne He Hp. unfold handler.
    rewrite He, Hc. cbn [negb falsy]. rewrite Hne. cbn [negb].
    rewrite bool_decide_eq_true_2 by done.
    cbn [negb fst snd settled settleAndStopLater default]. by rewrite Hp.
  - intros c u events Hr. rewrite run_settled; [done |]. by rewrite Hr.
  - intros l'. unfold handler. by repeat case_match.
  - unfold handler. split.
    + repeat case_match; simplify_eq; cbn [fst]; try done.
      intros _. split; [by destruct (falsy (error req)) | done].
    + intros [-> ->]. done.
Qed.

End CallbackListener.

Section CallbackListenerInstances.
Import JS Mail.

(** C5 as stated fails: the flow is resolved by the first callback, and
    the same callback arriving again before the server stops is answered
    with the "Authenticated!" page, not with the waiting page. The
    resolved value is the same. *)
Lemma second_callback_not_waiting :
  run "s3cr3t"
    [Request Scenario.goodCallback; Request Scenario.goodCallback]
    (start 8080)
  = ([Some AuthenticatedPage; Some AuthenticatedPage],
     {| settled := Resolved "abc" "http://localhost:8080";
        listening := true; stopTimers := 2; timeoutArmed := true;
        port := 8080 |})
  /\ AuthenticatedPage <> WaitingPage.
Proof. split; [vm_compute; reflexivity | done]. Qed.

(** A forged state rejects the pending flow. *)
Lemma callback_listener_witness :
  settled (handler "s3cr3t" Scenario.forgedCallback (start 8080)).2
  = Rejected StateMismatch.
Proof.
  destruct (callback_listener "s3cr3t" (start 8080) Scenario.forgedCallback)
    as (H & _).
  destruct H as (_ & H); [done |].
  by destruct H.
Defined.

End CallbackListenerInstances.

(** * Further properties of the code *)

(** ** Numbers and strings *)

Section Builtins.
Import JS.

Lemma wsLen_plain c r : Numeral.plain c -> wsLen (String c r) = 0%nat.
Proof.
  intros [Hlt Hws]. cbn [wsLen]. rewrite Hws.
  unfold ws2, ws3.
  assert ((code c =? 194) = false)%N as -> by (apply N.eqb_neq; lia).
  assert ((code c =? 225) = false)%N as -> by (apply N.eqb_neq; lia).
  assert ((code c =? 226) = false)%N as -> by (apply N.eqb_neq; lia).
  assert ((code c =? 227) = false)%N as -> by (apply N.eqb_neq; lia).
  assert ((code c =? 239) = false)%N as -> by (apply N.eqb_neq; lia).
  cbn [andb orb]. by repeat case_match.
Qed.

Lemma trimStart_plain c r :
  Numeral.plain c -> trimStart (String c r) = String c r.
Proof. intros H. cbn [trimStart]. by rewrite (wsLen_plain c r H). Qed.

(** A string of plain characters has nothing to trim. *)
Lemma trim_plain s :
  Forall Numeral.plain (String.list_ascii_of_string s) -> trim s = s.
Proof.
  unfold trim. destruct s as [|c s]; [done |].
  intros H. rewrite trimStart_plain by by inversion H.
  revert c H. induction s as [|c' s IH]; intros c H.
  - cbn [trimEnd]. unfold blank.
    rewrite trimStart_plain by by inversion H. done.
  - cbn [trimEnd]. unfold blank at 1.
    rewrite trimStart_plain by by inversion H. cbn [nonempty negb].
    f_equal. apply IH. by inversion H.
Qed.

Lemma digits_numeral d acc :
  digits (Some acc) (DecimalString.NilEmpty.string_of_uint d)
  = Some (Numeral.value d acc).
Proof.
  assert (Hstep : forall c k r acc,
            digit c = Some k ->
            digits (Some acc) (String c r) = digits (Some (10 * acc + k)) r).
  { intros c k r a Hc. cbn [digits]. by rewrite Hc. }
  revert acc.
  induction d; intros acc;
    cbn [DecimalString.NilEmpty.string_of_uint Numeral.value];
    [done | ..];
    first [ rewrite (Hstep _ 0) by reflexivity
          | rewrite (Hstep _ 1) by reflexivity
          | rewrite (Hstep _ 2) by reflexivity
          | rewrite (Hstep _ 3) by reflexivity
          | rewrite (Hstep _ 4) by reflexivity
          | rewrite (Hstep _ 5) by reflexivity
          | rewrite (Hstep _ 6) by reflexivity
          | rewrite (Hstep _ 7) by reflexivity
          | rewrite (Hstep _ 8) by reflexivity
          | rewrite (Hstep _ 9) by reflexivity ];
    rewrite IHd; do 2 f_equal; lia.
Qed.

Lemma numeral_plain d :
  Forall Numeral.plain
    (String.list_ascii_of_string
       (DecimalString.NilEmpty.string_of_uint d)).
Proof.
  induction d; cbn; constructor; try done; by vm_compute.
Qed.

Lemma value_of_uint_acc d p :
  Z.pos (Pos.of_uint_acc d p) = Numeral.value d (Z.pos p).
Proof.
  revert p. induction d; intros p; cbn [Pos.of_uint_acc Numeral.value];
    try done; rewrite IHd; f_equal; lia.
Qed.

Lemma value_of_uint d : Z.of_N (Pos.of_uint d) = Numeral.value d 0.
Proof.
  induction d; cbn [Pos.of_uint Numeral.value]; try done;
    cbn [Z.of_N]; rewrite value_of_uint_acc; f_equal.
Qed.

Lemma digits_step c k r acc :
  digit c = Some k ->
  digits acc (String c r) = digits (Some (10 * default 0 acc + k)) r.
Proof. intros Hc. cbn [digits]. by rewrite Hc. Qed.

Lemma digits_numeral_zero d :
  digits None (DecimalString.NilZero.string_of_uint d)
  = Some (Numeral.value d 0).
Proof.
  destruct d; cbn [DecimalString.NilZero.string_of_uint
                   DecimalString.NilEmpty.string_of_uint Numeral.value];
    [reflexivity | ..];
    first [ rewrite (digits_step _ 0) by reflexivity
          | rewrite (digits_step _ 1) by reflexivity
          | rewrite (digits_step _ 2) by reflexivity
          | rewrite (digits_step _ 3) by reflexivity
          | rewrite (digits_step _ 4) by reflexivity
          | rewrite (digits_step _ 5) by reflexivity
          | rewrite (digits_step _ 6) by reflexivity
          | rewrite (digits_step _ 7) by reflexivity
          | rewrite (digits_step _ 8) by reflexivity
          | rewrite (digits_step _ 9) by reflexivity ];
    cbn [default]; rewrite digits_numeral; do 2 f_equal; lia.
Qed.

Lemma numeral_zero_plain d :
  Forall Numeral.plain
    (String.list_ascii_of_string
       (DecimalString.NilZero.string_of_uint d)).
Proof.
  destruct d; try apply (numeral_plain (_ d)).
  - repeat constructor; by vm_compute.
Qed.

Lemma numeral_zero_head d :
  exists c r,
    DecimalString.NilZero.string_of_uint d = String c r
    /\ Numeral.plain c /\ c <> "-"%char /\ c <> "+"%char.
Proof.
  destruct d; cbn; eexists _, _; (split; [reflexivity |]);
    (split; [by vm_compute | done]).
Qed.

Lemma numberToString_plain z :
  Z.abs z < 2 ^ 53 -> numberToString (Int z) = decimalString z.
Proof.
  intros H. unfold numberToString.
  by destruct (Z.ltb_spec (Z.abs z) (2 ^ 53)); [|lia].
Qed.

Lemma toNumber_plain z : Z.abs z < 2 ^ 53 -> toNumber z = z.
Proof.
  intros H. unfold toNumber.
  by destruct (Z.ltb_spec (Z.abs z) (2 ^ 53)); [|lia].
Qed.

(** What [String(n)] writes, [parseInt] reads back, for NaN and for the
    integers below 2^53. *)
Lemma parseInt_numberToString n :
  printsPlain n -> parseInt (numberToString n) = n.
Proof.
  destruct n as [z|]; [|reflexivity]. intros Hz.
  rewrite numberToString_plain by exact Hz.
  rewrite <- (toNumber_plain z Hz) at 2. clear Hz.
  unfold decimalString, parseInt.
  rewrite <- (DecimalZ.of_to z) at 2.
  destruct (Z.to_int z) as [d|d];
    cbn [DecimalString.NilZero.string_of_int Z.of_int].
  - destruct (numeral_zero_head d) as (c & r & Heq & Hp & Hm & Hpl).
    pose proof (digits_numeral_zero d) as Hd. rewrite Heq in *.
    rewrite trimStart_plain by done.
    destruct (Ascii.eqb_spec c "-"); [done |].
    destruct (Ascii.eqb_spec c "+"); [done |].
    assert ((let '(sign, body) :=
               match String c r with
               | String "-"%char r0 => (-1, r0)
               | String "+"%char r0 => (1, r0)
               | _ => (1, String c r)
               end in
             match digits None body with
             | Some v => Int (toNumber (sign * v))
             | None => NaN
             end)
            = match digits None (String c r) with
              | Some v => Int (toNumber (1 * v))
              | None => NaN
              end) as ->.
    { destruct c as [[] [] [] [] [] [] [] []]; try done. }
    rewrite Hd. unfold Z.of_uint. rewrite value_of_uint.
    do 2 f_equal; lia.
  - rewrite trimStart_plain by by vm_compute.
    cbv beta iota zeta. rewrite digits_numeral_zero.
    unfold Z.of_uint. rewrite value_of_uint. do 2 f_equal; lia.
Qed.

Lemma trim_numberToString n :
  printsPlain n -> trim (numberToString n) = numberToString n.
Proof.
  destruct n as [z|]; [|reflexivity]. intros Hz.
  rewrite numberToString_plain by exact Hz.
  apply trim_plain. unfold decimalString.
  destruct (Z.to_int z) as [d|d];
    cbn [DecimalString.NilZero.string_of_int].
  - apply numeral_zero_plain.
  - constructor; [by vm_compute | apply numeral_zero_plain].
Qed.

Lemma nonempty_numberToString n :
  printsPlain n -> nonempty (numberToString n) = true.
Proof.
  destruct n as [z|]; [|reflexivity]. intros Hz.
  rewrite numberToString_plain by exact Hz. unfold decimalString.
  destruct (Z.to_int z) as [d|d];
    cbn [DecimalString.NilZero.string_of_int]; [|done].
  by destruct (numeral_zero_head d) as (c & r & -> & _).
Qed.

End Builtins.

(** ** The keychain *)

Section KeychainProperties.
Import JS Effects Keychain.
Context {Req Resp Err : Type}.
Implicit Types w : world Req Resp.

Lemma serviceName_inj (tool tool' : string) :
  serviceName tool = serviceName tool' -> tool = tool'.
Proof.
  unfold serviceName, SERVICE_PREFIX. intros H.
  by repeat (apply String.app_inj in H).
Qed.

Lemma keychain_key_ne (tool account tool' account' : string) :
  (tool', account') <> (tool, account) ->
  (serviceName tool', account') <> (serviceName tool, account).
Proof.
  intros Hne Heq. apply Hne.
  pose proof (f_equal fst Heq) as H1. pose proof (f_equal snd Heq) as H2.
  cbn [fst snd] in H1, H2. apply serviceName_inj in H1. by subst.
Qed.

(** X1. A secret that was stored is read back trimmed, and is there for
    [hasSecret]; storing it changes what is read under no other tool or
    account, and sends nothing. *)
Theorem setSecret_then_getSecret (tool account value : string) w :
  let w' := (setSecret (Err := Err) tool account value w).2 in
  (getSecret (Err := Err) tool account w').1 = Ok (Some (trim value))
  /\ (hasSecret (Err := Err) tool account w').1 = Ok true
  /\ (forall tool' account',
        (tool', account') <> (tool, account) ->
        getSecret (Err := Err) tool' account' w'
        = ((getSecret (Err := Err) tool' account' w).1, w'))
  /\ fetches (trace w') = fetches (trace w).
Proof.
  cbn [setSecret snd]. unfold hasSecret, getSecret.
  cbn [afterSet secrets trace]. rewrite lookup_insert_eq. cbn.
  split; [done |]. split; [done |]. split.
  - intros tool' account' Hne. rewrite lookup_insert_ne; [done |].
    intros Heq. by apply (keychain_key_ne _ _ _ _ Hne).
  - unfold fetches. rewrite omap_app. cbn. by rewrite app_nil_r.
Qed.

(** X2. [deleteSecret] answers [true] exactly when there was an entry;
    afterwards the entry reads as missing, every other entry reads as
    before, and deleting again answers [false] and changes nothing. *)
Theorem deleteSecret_then_getSecret (tool account : string) w :
  let run := deleteSecret (Err := Err) tool account w in
  (run.1 = Ok true
   <-> exists v, (getSecret (Err := Err) tool account w).1 = Ok (Some v))
  /\ (run.1 = Ok true \/ run = (Ok false, w))
  /\ (getSecret (Err := Err) tool account run.2).1 = Ok None
  /\ (hasSecret (Err := Err) tool account run.2).1 = Ok false
  /\ (forall tool' account',
        (tool', account') <> (tool, account) ->
        (getSecret (Err := Err) tool' account' run.2).1
        = (getSecret (Err := Err) tool' account' w).1)
  /\ deleteSecret (Err := Err) tool account run.2 = (Ok false, run.2).
Proof.
  unfold hasSecret, deleteSecret, getSecret. cbn.
  destruct (secrets w !! (serviceName tool, account)) as [v|] eqn:Hv;
    cbn [fst snd secrets].
  - rewrite lookup_delete_eq. cbn.
    split; [split; [eauto | done] |].
    split; [by left |]. split; [done |]. split; [done |]. split; [|done].
    intros tool' account' Hne. rewrite lookup_delete_ne; [done |].
    intros Heq. by apply (keychain_key_ne _ _ _ _ Hne).
  - rewrite Hv. cbn.
    split; [split; [done | by intros [? [=]]] |].
    split; [by right |]. done.
Qed.

End KeychainProperties.

(** ** Tokens and credentials in the keychain *)

Section StoredTokens.
Import JS Effects Keychain Http.
Implicit Types w : world request json.

Lemma deleteSecret_world (tool account : string) w :
  secrets (deleteSecret (Err := error) tool account w).2
    = delete (serviceName tool, account) (secrets w)
  /\ clock (deleteSecret (Err := error) tool account w).2 = clock w
  /\ fetches (trace (deleteSecret (Err := error) tool account w).2)
     = fetches (trace w)
  /\ exists b, (deleteSecret (Err := error) tool account w).1 = Ok b.
Proof.
  unfold deleteSecret.
  destruct (secrets w !! (serviceName tool, account)) eqn:Hv;
    cbn [fst snd secrets clock trace].
  - repeat split; [|by eexists]. unfold fetches. rewrite omap_app. cbn.
    by rewrite app_nil_r.
  - repeat split; [|by eexists]. symmetry. by apply delete_id.
Qed.

(** What [getSecret] finds under the three token accounts after
    [saveTokens]. *)
Lemma saveTokens_stored (tool : string) (t : OAuth2Tokens) w :
  let w' := (saveTokens tool t w).2 in
  getSecret (Err := error) tool "access-token" w'
    = (Ok (Some (trim (accessToken t))), w')
  /\ getSecret (Err := error) tool "refresh-token" w'
     = (Ok (Some (trim (refreshToken t))), w')
  /\ getSecret (Err := error) tool "expires-at" w'
     = (Ok (Some (trim (numberToString (expiresAt t)))), w').
Proof.
  unfold saveTokens, bind, setSecret, getSecret.
  cbn [fst snd afterSet secrets].
  rewrite !lookup_insert_ne by done. rewrite lookup_insert_eq.
  rewrite lookup_insert_ne by done. rewrite lookup_insert_eq.
  rewrite lookup_insert_eq. done.
Qed.


(** X4. What [saveOAuth2Credentials] wrote, [loadOAuth2Credentials] reads
    back trimmed; if one of the three is empty or white space, loading
    fails with "No OAuth2 credentials". *)
Theorem saveOAuth2Credentials_then_load
    (tool clientId clientSecret redirectUri : string) w :
  let w' :=
    (saveOAuth2Credentials tool clientId clientSecret redirectUri w).2 in
  loadOAuth2Credentials tool w'
  = (if nonempty (trim clientId) && nonempty (trim clientSecret)
        && nonempty (trim redirectUri)
     then Ok {| Http.clientId := trim clientId;
                Http.clientSecret := trim clientSecret;
                Http.redirectUri := trim redirectUri |}
     else Throw (NoOAuth2Credentials tool),
     w').
Proof.
  unfold saveOAuth2Credentials, loadOAuth2Credentials, bind, setSecret,
    getSecret.
  cbn [fst snd afterSet secrets].
  rewrite !lookup_insert_ne by done. rewrite lookup_insert_eq.
  rewrite lookup_insert_ne by done. rewrite lookup_insert_eq.
  rewrite lookup_insert_eq.
  cbn [fmap option_fmap option_map].
  by destruct (nonempty (trim clientId) && nonempty (trim clientSecret)
               && nonempty (trim redirectUri)).
Qed.

Lemma deleteSecret_then {A} (tool account : string) (rest : M A) w :
  bind (deleteSecret tool account) (fun _ => rest) w
  = rest (deleteSecret (Err := error) tool account w).2.
Proof.
  unfold bind.
  destruct (deleteSecret_world tool account w) as (_ & _ & _ & b & Hb).
  destruct (deleteSecret tool account w) as [[b'|e] w']; [done |].
  by cbn in Hb.
Qed.

(** The world after [clearOAuth2Data]: the six entries of the tool are
    gone, the clock and the requests sent are as before. *)
Lemma clearOAuth2Data_run (tool : string) w :
  (clearOAuth2Data tool w).1 = Ok tt
  /\ secrets (clearOAuth2Data tool w).2
     = delete (serviceName tool, "expires-at")
         (delete (serviceName tool, "refresh-token")
            (delete (serviceName tool, "access-token")
               (delete (serviceName tool, "redirect-uri")
                  (delete (serviceName tool, "client-secret")
                     (delete (serviceName tool, "client-id")
                        (secrets w))))))
  /\ clock (clearOAuth2Data tool w).2 = clock w
  /\ fetches (trace (clearOAuth2Data tool w).2) = fetches (trace w).
Proof.
  unfold clearOAuth2Data. cbn [foldr].
  rewrite !deleteSecret_then. cbn [ret fst snd].
  split; [done |].
  destruct (deleteSecret_world tool "client-id" w) as (S1 & C1 & F1 & _).
  set (w1 := (deleteSecret tool "client-id" w).2) in *.
  destruct (deleteSecret_world tool "client-secret" w1)
    as (S2 & C2 & F2 & _).
  set (w2 := (deleteSecret tool "client-secret" w1).2) in *.
  destruct (deleteSecret_world tool "redirect-uri" w2)
    as (S3 & C3 & F3 & _).
  set (w3 := (deleteSecret tool "redirect-uri" w2).2) in *.
  destruct (deleteSecret_world tool "access-token" w3)
    as (S4 & C4 & F4 & _).
  set (w4 := (deleteSecret tool "access-token" w3).2) in *.
  destruct (deleteSecret_world tool "refresh-token" w4)
    as (S5 & C5 & F5 & _).
  set (w5 := (deleteSecret tool "refresh-token" w4).2) in *.
  destruct (deleteSecret_world tool "expires-at" w5)
    as (S6 & C6 & F6 & _).
  split; [|split]; congruence.
Qed.

(** X5. After [clearOAuth2Data] nobody is logged in under that tool: the
    tokens read as missing, the client credentials too, and
    [getValidAccessToken] fails with "Not logged in" without sending
    anything. The entries of every other tool read as before. *)
Theorem clearOAuth2Data_forgets
    (tool : string) (config : OAuth2Config)
    (credentialsTool : option string) w :
  let w' := (clearOAuth2Data tool w).2 in
  (clearOAuth2Data tool w).1 = Ok tt
  /\ loadTokens tool w' = (Ok None, w')
  /\ loadOAuth2Credentials tool w' = (Throw (NoOAuth2Credentials tool), w')
  /\ getValidAccessToken tool config credentialsTool w'
     = (Throw (NotLoggedIn tool), w')
  /\ fetches (trace w') = fetches (trace w)
  /\ (forall tool' account,
        tool' <> tool ->
        (getSecret (Err := error) tool' account w').1
        = (getSecret (Err := error) tool' account w).1).
Proof.
  intros w'. destruct (clearOAuth2Data_run tool w) as (Hok & Hs & _ & Hf).
  fold w' in Hs, Hf.
  assert (Hload : loadTokens tool w' = (Ok None, w')).
  { unfold loadTokens, bind, getSecret. cbn [fst snd]. rewrite Hs.
    rewrite !lookup_delete_ne by done. by rewrite lookup_delete_eq. }
  split; [done |]. split; [done |]. split; [|split; [|split; [done |]]].
  - unfold loadOAuth2Credentials, bind, getSecret. cbn [fst snd].
    rewrite Hs. rewrite !lookup_delete_ne by done.
    by rewrite lookup_delete_eq.
  - unfold getValidAccessToken. unfold bind at 1. by rewrite Hload.
  - intros tool' account Hne. unfold getSecret. cbn [fst]. rewrite Hs.
    assert (Hk : forall a, (serviceName tool, a)
                           <> (serviceName tool', account)).
    { intros a Heq. apply Hne.
      pose proof (f_equal fst Heq) as H1. cbn [fst] in H1.
      symmetry. by apply serviceName_inj. }
    by rewrite !lookup_delete_ne by apply Hk.
Qed.

(** X6. Tokens just saved are served from the keychain: when their
    expiry is an integer below 2^53, while the clock is before it
    [getValidAccessToken] returns the saved access token and sends no
    request. *)
Theorem saved_tokens_are_cached
    (tool : string) (config : OAuth2Config)
    (credentialsTool : option string) (t : OAuth2Tokens) w :
  trim (accessToken t) = accessToken t ->
  nonempty (accessToken t) = true ->
  trim (refreshToken t) = refreshToken t ->
  nonempty (refreshToken t) = true ->
  printsPlain (expiresAt t) ->
  Spec.fresh (clock w) (expiresAt t) ->
  let w' := (saveTokens tool t w).2 in
  getValidAccessToken tool config credentialsTool w'
  = (Ok (accessToken t), w').
Proof.
  intros Ha Hna Hr Hnr Hplain Hfresh w'.
  assert (Hclock : clock w' = clock w) by reflexivity.
  destruct (saveTokens_stored tool t w) as (Sa & Sr & Se).
  fold w' in Sa, Sr, Se. rewrite Ha in Sa. rewrite Hr in Sr.
  rewrite trim_numberToString in Se by exact Hplain.
  assert (Hload : loadTokens tool w' = (Ok (Some t), w')).
  { unfold loadTokens. unfold bind at 1. rewrite Sa.
    unfold bind at 1. rewrite Sr. unfold bind at 1. rewrite Se.
    rewrite Hna, Hnr.
    rewrite nonempty_numberToString, parseInt_numberToString
      by exact Hplain.
    by destruct t. }
  unfold getValidAccessToken. unfold bind at 1. rewrite Hload.
  unfold bind at 1. cbn [dateNow accessToken expiresAt]. rewrite Hclock.
  destruct (expiresAt t) as [e|]; [|done]. simpl in Hfresh. cbn [lt].
  by destruct (Z.ltb_spec (clock w) e); [|lia].
Qed.

(** X7. The 60-second buffer at the edge: tokens parsed from an answer
    whose [expires_in] is a number of at most 60 are already expired when
    they are issued, so they are never served from the keychain; with a
    larger number, or with no [expires_in] at all (3600 is assumed), they
    are fresh when issued. *)
Theorem parseTokenResponse_buffer
    (data : json) (existing : option string) (t : OAuth2Tokens) w :
  (parseTokenResponse data existing w).1 = Ok t ->
  (forall k, field data "expires_in" = Num (Int k) ->
             (k <= 60 -> Spec.expired (clock w) (expiresAt t))
             /\ (60 < k -> Spec.fresh (clock w) (expiresAt t)))
  /\ (data !! "expires_in" = None -> Spec.fresh (clock w) (expiresAt t)).
Proof.
  intros Hok.
  destruct (parseTokenResponse_cases data existing w)
    as [(a & r & _ & _ & _ & _ & Hres)
       |[(a & _ & _ & _ & Hres)|(_ & Hres)]];
    rewrite Hres in Hok; try done.
  injection Hok as <-. cbn [expiresAt]. split.
  - intros k ->. cbn [expiresIn add sub]. simpl. lia.
  - intros Hnone. unfold field. rewrite Hnone. simpl. lia.
Qed.

End StoredTokens.

Section StoredTokensInstances.
Import JS Effects Keychain Http.


Lemma saved_tokens_are_cached_witness :
  getValidAccessToken "cal" Scenario.provider None
    (saveTokens "cal" Scenario.freshTokens
       (Scenario.exchangeWorld Scenario.fullAnswer)).2
  = (Ok "new-access",
     (saveTokens "cal" Scenario.freshTokens
        (Scenario.exchangeWorld Scenario.fullAnswer)).2).
Proof.
  apply (saved_tokens_are_cached "cal" Scenario.provider None
           Scenario.freshTokens
           (Scenario.exchangeWorld Scenario.fullAnswer));
    reflexivity.
Defined.

Lemma parseTokenResponse_buffer_witness :
  Spec.expired 1000 (Int 970).
Proof.
  destruct (parseTokenResponse_buffer
              (<["expires_in" := Num (Int 30)]> Scenario.fullAnswer) None
              {| accessToken := "new-access"; refreshToken := "new-refresh";
                 expiresAt := Int 970 |}
              (Scenario.exchangeWorld Scenario.fullAnswer)) as (H & _).
  - vm_compute; reflexivity.
  - destruct (H 30) as (Hexp & _); [vm_compute; reflexivity |].
    apply Hexp. lia.
Defined.

End StoredTokensInstances.

(** ** Percent-encoding and its inverse *)

Section Encoding.
Import JS Garmin.

(** A character that is neither [+] nor [%] decodes to itself. *)
Lemma formDecode_literal c r :
  Ascii.eqb c "+" = false -> Ascii.eqb c "%" = false ->
  formDecode (String c r) = String c (formDecode r).
Proof.
  intros Hp Hq. cbn [formDecode]. rewrite Hp, Hq.
  by repeat case_match.
Qed.

(** One character through [percentEncode] and back. *)
Lemma formDecode_percentEncode_byte c r :
  formDecode
    ((if Rfc3986.unreserved c then String c EmptyString
      else Rfc3986.escaped c) +:+ r)
  = String c (formDecode r).
Proof.
  destruct c as [[] [] [] [] [] [] [] []];
    first [ reflexivity | apply formDecode_literal; reflexivity ].
Qed.

Lemma encode_app_decode s r :
  formDecode (Rfc3986.encode s +:+ r) = s +:+ formDecode r.
Proof.
  induction s as [|c s IH]; [reflexivity |].
  cbn [Rfc3986.encode]. rewrite append_assoc.
  rewrite formDecode_percentEncode_byte, IH. by rewrite append_cons.
Qed.

Lemma append_nil_r (s : string) : s +:+ EmptyString = s.
Proof.
  induction s as [|c s IH]; [reflexivity |].
  rewrite append_cons. by rewrite IH.
Qed.

Lemma percentEncode_encode s : percentEncode s = Rfc3986.encode s.
Proof.
  unfold percentEncode.
  induction s as [|c s IH]; [reflexivity |].
  cbn [encodeURIComponent Rfc3986.encode].
  by rewrite replaceReserved_app, percentEncode_byte, IH.
Qed.

Lemma encode_alphabet s :
  Forall (fun c => Rfc3986.unreserved c = true \/ c = "%"%char)
    (String.list_ascii_of_string (Rfc3986.encode s)).
Proof.
  induction s as [|c s IH]; [constructor |].
  cbn [Rfc3986.encode].
  assert (Hc : Forall (fun c => Rfc3986.unreserved c = true \/ c = "%"%char)
                 (String.list_ascii_of_string
                    (if Rfc3986.unreserved c then String c EmptyString
                     else Rfc3986.escaped c))).
  { apply List.Forall_forall. intros x Hx.
    assert (Hb : forallb (fun x => Rfc3986.unreserved x || Ascii.eqb x "%")
                   (String.list_ascii_of_string
                      (if Rfc3986.unreserved c then String c EmptyString
                       else Rfc3986.escaped c)) = true)
      by (destruct c as [[] [] [] [] [] [] [] []]; vm_compute; reflexivity).
    pose proof (proj1 (forallb_forall _ _) Hb x Hx) as Hok.
    apply orb_true_iff in Hok as [Hok|Hok]; [by left | right].
    by apply Ascii.eqb_eq. }
  revert Hc. generalize (if Rfc3986.unreserved c then String c EmptyString
                         else Rfc3986.escaped c).
  intros e He. induction e as [|x e IHe]; [done |].
  rewrite append_cons. cbn [String.list_ascii_of_string].
  inversion He; subst. constructor; auto.
Qed.

(** X8. [percentEncode] loses nothing and produces only safe characters:
    decoding the escapes gives the string back, so two different strings
    never have the same encoding, and the result consists of letters,
    digits, [- . _ ~] and the percent sign only; it contains no
    ampersand, no equals sign, no quote, no comma and no space. *)
Theorem percentEncode_reversible :
  (forall s, formDecode (percentEncode s) = s)
  /\ (forall s s', percentEncode s = percentEncode s' -> s = s')
  /\ (forall s,
        Forall (fun c => Rfc3986.unreserved c = true \/ c = "%"%char)
          (String.list_ascii_of_string (percentEncode s)))
  /\ (forall s c,
        In c (String.list_ascii_of_string (percentEncode s)) ->
        ~ In c (String.list_ascii_of_string ("&= ,+" +:+ String quote EmptyString))).
Proof.
  assert (Hdec : forall s, formDecode (percentEncode s) = s).
  { intros s. rewrite percentEncode_encode.
    rewrite <- (append_nil_r (Rfc3986.encode s)).
    rewrite encode_app_decode. cbn [formDecode]. apply append_nil_r. }
  split; [exact Hdec |]. split; [|split].
  - intros s s' H. rewrite <- (Hdec s), <- (Hdec s'). by rewrite H.
  - intros s. rewrite percentEncode_encode. apply encode_alphabet.
  - intros s c Hin Hbad. rewrite percentEncode_encode in Hin.
    pose proof (proj1 (List.Forall_forall _ _) (encode_alphabet s) c Hin)
      as [Hu | ->].
    + cbn in Hbad.
      repeat (destruct Hbad as [<- | Hbad]; [by vm_compute in Hu |]).
      done.
    + cbn in Hbad. repeat (destruct Hbad as [Hbad | Hbad]; [done |]).
      done.
Qed.

End Encoding.

(** ** The cookie jar *)

Section Cookies.
Import JS Effects Garmin.

Lemma split_cons sep s : exists h t, split sep s = h :: t.
Proof.
  induction s as [|a s (h & t & IH)]; [by eexists _, _ |].
  cbn [split]. rewrite IH. destruct (Ascii.eqb a sep); by eexists _, _.
Qed.

(** The first piece of [s.split(sep)] is [s] up to its first [sep]. *)
Lemma split_head sep s :
  let h := hd EmptyString (split sep s) in
  ~ In sep (String.list_ascii_of_string h)
  /\ (s = h \/ exists rest, s = h +:+ String sep rest).
Proof.
  induction s as [|a s IH]; [cbn; split; [tauto | by left] |].
  cbn [split]. destruct (Ascii.eqb_spec a sep) as [->|Hne].
  - cbn. split; [tauto |]. right. by exists s.
  - destruct (split_cons sep s) as (h & t & Hs). rewrite Hs in *.
    cbn [hd] in *. destruct IH as (Hnot & Hrest).
    split.
    + cbn. intros [Heq | Hin]; [by apply Hne | by apply Hnot].
    + destruct Hrest as [-> | (rest & ->)]; [by left |].
      right. exists rest. by rewrite append_cons.
Qed.

(** X9. [extractCookies] keeps of every Set-Cookie header exactly the text
    before its first semicolon, so no attribute (Path, HttpOnly, ...) gets
    into the jar; the pieces are joined with "; ", and a response without
    Set-Cookie gives the empty jar. *)
Theorem extractCookies_keeps_pairs (res : response) :
  extractCookies res
  = join "; " (map (fun c => hd EmptyString (split ";" c)) (setCookie res))
  /\ (forall c,
        In c (setCookie res) ->
        let kept := hd EmptyString (split ";" c) in
        ~ In ";"%char (String.list_ascii_of_string kept)
        /\ (c = kept \/ exists attributes,
                          c = kept +:+ String ";" attributes))
  /\ (setCookie res = [] -> extractCookies res = EmptyString)
  /\ (forall c, setCookie res = [c] ->
                extractCookies res = hd EmptyString (split ";" c)).
Proof.
  split; [reflexivity |]. split; [|split].
  - intros c _. apply split_head.
  - unfold extractCookies. by intros ->.
  - unfold extractCookies. by intros c ->.
Qed.

Lemma nonempty_app_r (a b : string) :
  nonempty b = true -> nonempty (a +:+ b) = true.
Proof. destruct a; [done |]. by rewrite append_cons. Qed.

Lemma nonempty_false (a : string) : nonempty a = false -> a = EmptyString.
Proof. by destruct a. Qed.

(** X10. [mergeCookies] is a monoid on cookie strings: the empty jar is
    neutral on both sides and merging is associative, so the jar built
    from several responses does not depend on how the merges are
    grouped; two non-empty jars are joined with "; ". *)
Theorem mergeCookies_monoid (a b c : string) :
  mergeCookies EmptyString a = a
  /\ mergeCookies a EmptyString = a
  /\ mergeCookies (mergeCookies a b) c = mergeCookies a (mergeCookies b c)
  /\ (nonempty a = true -> nonempty b = true ->
      mergeCookies a b = a +:+ "; " +:+ b)
  /\ (nonempty (mergeCookies a b) = nonempty a || nonempty b).
Proof.
  unfold mergeCookies.
  destruct (nonempty a) eqn:Ha, (nonempty b) eqn:Hb, (nonempty c) eqn:Hc;
    cbn [negb nonempty andb orb];
    repeat match goal with
           | H : nonempty ?x = false |- _ =>
               apply nonempty_false in H; subst x
           end;
    cbn [negb nonempty];
    rewrite ?Ha, ?Hb, ?Hc; cbn [negb];
    rewrite ?(nonempty_app_r a ("; " +:+ b)),
      ?(nonempty_app_r b ("; " +:+ c)), ?(nonempty_app_r a ("; " +:+ c))
      by (by apply nonempty_app_r);
    cbn [negb]; rewrite ?append_assoc; repeat split; try done;
    by apply nonempty_app_r, nonempty_app_r.
Qed.

End Cookies.

(** ** The course of a login *)

Section LoginCourse.
Import JS Effects Keychain Garmin.
Implicit Types w : world request response.

Lemma getConsumer_errors w e :
  (getConsumer w).1 = Throw e ->
  (exists tool account, e = NoSecretFound tool account)
  \/ (exists st, e = ConsumerFetchFailed st).
Proof.
  unfold getConsumer, fetchConsumer, bind, getSecret, requireSecret, bind,
    getSecret, fetch, setSecret, ret, throw.
  cbn [fst snd].
  repeat case_match; simplify_eq; cbn [fst snd]; intros [= <-]; eauto.
Qed.

Lemma extractTicket_errors loginHtml w e :
  (extractTicket loginHtml w).1 = Throw e ->
  e = AccountLocked \/ e = MfaRequired \/ e = LoginFailed.
Proof.
  unfold extractTicket, ret, throw.
  repeat case_match; cbn [fst]; intros [= <-]; auto.
Qed.

(** [getConsumer] leaves in the trace only its own events, and in the
    keychain only the two consumer entries. *)
Lemma getConsumer_effects w :
  exists evs,
    trace (getConsumer w).2 = trace w ++ evs
    /\ Forall Flow.consumerEvent evs
    /\ forall key,
        key <> (serviceName TOOL, "consumer-key") ->
        key <> (serviceName TOOL, "consumer-secret") ->
        secrets (getConsumer w).2 !! key = secrets w !! key.
Proof.
  assert (Hnil : exists evs : list (event request),
            trace w = trace w ++ evs
            /\ Forall Flow.consumerEvent evs
            /\ forall key,
                key <> (serviceName TOOL, "consumer-key") ->
                key <> (serviceName TOOL, "consumer-secret") ->
                secrets w !! key = secrets w !! key).
  { exists []. by rewrite app_nil_r. }
  assert (Hfetch : exists evs,
            trace (fetchConsumer w).2 = trace w ++ evs
            /\ Forall Flow.consumerEvent evs
            /\ forall key,
                key <> (serviceName TOOL, "consumer-key") ->
                key <> (serviceName TOOL, "consumer-secret") ->
                secrets (fetchConsumer w).2 !! key = secrets w !! key).
  { unfold fetchConsumer, bind, fetch, setSecret, ret, throw.
    destruct (ok _); cbn [negb fst snd afterSet afterFetch trace secrets].
    - eexists [_; _; _]. rewrite <- !app_assoc.
      split; [reflexivity |]. split.
      + repeat (apply Forall_cons_2;
                [unfold Flow.consumerEvent; eauto |]).
        apply Forall_nil_2.
      + intros key H1 H2. by rewrite !lookup_insert_ne.
    - eexists [_]. split; [reflexivity |]. split; [|done].
      apply Forall_cons_2; [by left | apply Forall_nil_2]. }
  unfold getConsumer, bind, getSecret, requireSecret, bind, getSecret,
    ret, throw.
  cbn [fst snd].
  repeat case_match; simplify_eq; cbn [fst snd]; auto.
Qed.


(** How far a login gets: what it leaves in the trace and in the
    keychain, and what it returns, stage by stage. [s0] is the keychain
    as [getConsumer] leaves it. *)
Lemma login_course email password w :
  let run := login email password w in
  let service := serviceName TOOL in
  let w0 := (getConsumer w).2 in
  let s0 := secrets w0 in
  let w1 := afterFetch w0 Flow.embedRequest in
  exists evs,
    trace (getConsumer w).2 = trace w ++ evs
    /\ ((exists e,
           (getConsumer w).1 = Throw e
           /\ run.1 = Throw e
           /\ trace run.2 = trace w ++ evs
           /\ secrets run.2 = s0)
        \/ exists consumer cookies,
             (getConsumer w).1 = Ok consumer
             /\ cookies = extractCookies (answer w0 Flow.embedRequest)
             /\ ((matchCsrf
                    (text (answer w1 (Flow.signinPageRequest cookies)))
                  = None
                  /\ run.1 = Throw CsrfNotFound
                  /\ trace run.2
                     = trace w ++ evs
                       ++ [Fetch Flow.embedRequest;
                           Fetch (Flow.signinPageRequest cookies)]
                  /\ secrets run.2 = s0)
                 \/ exists allCookies csrf,
                      let sent :=
                        [Fetch Flow.embedRequest;
                         Fetch (Flow.signinPageRequest cookies);
                         Fetch (Flow.credentialsRequest allCookies email
                                  password csrf)] in
                      matchCsrf
                        (text (answer w1 (Flow.signinPageRequest cookies)))
                      = Some csrf
                      /\ allCookies
                         = mergeCookies cookies
                             (extractCookies
                                (answer w1
                                   (Flow.signinPageRequest cookies)))
                      /\
                      ((exists e,
                         (e = AccountLocked \/ e = MfaRequired
                          \/ e = LoginFailed)
                         /\ run.1 = Throw e
                         /\ trace run.2 = trace w ++ evs ++ sent
                         /\ secrets run.2 = s0)
                      \/ exists ticket,
                           let sent' :=
                             sent
                             ++ [Fetch (preauthorizedRequest consumer
                                          ticket)] in
                           (exists e,
                              ((exists st body,
                                  e = OAuth1ExchangeFailed st body)
                               \/ e = NoOAuth1Token)
                              /\ run.1 = Throw e
                              /\ trace run.2 = trace w ++ evs ++ sent'
                              /\ secrets run.2 = s0)
                           \/ exists token secret,
                                let s1 :=
                                  <[(service, "oauth1-secret") := secret]>
                                    (<[(service, "oauth1-token") := token]>
                                       s0) in
                                let sent'' :=
                                  sent'
                                  ++ [SetSecret service "oauth1-token"
                                        token;
                                      SetSecret service "oauth1-secret"
                                        secret;
                                      Fetch (exchangeRequest consumer token
                                               secret)] in
                                Flow.reachedTicket w email password csrf
                                  consumer ticket
                                /\ Flow.servedOAuth1 w email password csrf
                                     consumer ticket token secret
                                /\ ((exists st body,
                                       run.1
                                       = Throw
                                           (OAuth2ExchangeFailed st body)
                                       /\ trace run.2
                                          = trace w ++ evs ++ sent''
                                       /\ secrets run.2 = s1
                                       /\ Flow.refused w email password
                                            csrf consumer ticket token
                                            secret st body)
                                    \/ exists a r e re,
                                         run.1 = Ok tt
                                         /\ trace run.2
                                            = trace w ++ evs ++ sent''
                                              ++ [SetSecret service
                                                    "access-token" a;
                                                  SetSecret service
                                                    "refresh-token" r;
                                                  SetSecret service
                                                    "expires-at" e;
                                                  SetSecret service
                                                    "refresh-expires-at"
                                                    re]
                                         /\ secrets run.2
                                            = <[(service,
                                                 "refresh-expires-at")
                                                := re]>
                                                (<[(service, "expires-at")
                                                   := e]>
                                                   (<[(service,
                                                       "refresh-token")
                                                      := r]>
                                                      (<[(service,
                                                          "access-token")
                                                         := a]> s1)))
                                         /\ Flow.granted w email password
                                              csrf consumer ticket token
                                              secret a r e re)))).
Proof.
  intros run service w0' s0 w1'.
  assert (Hrun : run = login email password w) by reflexivity.
  clearbody run.
  cbv beta iota zeta delta [login bind fetch ret throw setSecret] in Hrun.
  destruct (getConsumer_effects w) as (evs & Hevs & _ & _).
  exists evs. split; [done |].
  subst s0 w1' w0'.
  pose proof (getConsumer_errors w) as Hce.
  destruct (getConsumer w) as [[consumer|e] w0] eqn:Hgc;
    cbn [fst snd] in *.
  2: { left. exists e. by subst run. }
  clear Hce. right.
  fold Flow.embedRequest in Hrun.
  set (w1 := afterFetch w0 Flow.embedRequest) in *.
  set (cookies := extractCookies (answer w0 Flow.embedRequest)) in *.
  fold (Flow.signinPageRequest cookies) in Hrun.
  set (csrfReq := Flow.signinPageRequest cookies) in *.
  set (w2 := afterFetch w1 csrfReq) in *.
  exists consumer, cookies. split; [done |]. split; [done |].
  assert (Hpre2 : trace w2
                  = trace w ++ evs ++ [Fetch Flow.embedRequest; Fetch csrfReq]).
  { subst w2 w1. cbn [afterFetch trace]. rewrite Hevs.
    by rewrite <- !app_assoc. }
  destruct (matchCsrf (text (answer w1 csrfReq))) as [csrf|] eqn:Hcsrf.
  2: { left. by subst run. }
  right.
  set (allCookies := mergeCookies cookies _) in *.
  fold (Flow.credentialsRequest allCookies email password csrf) in Hrun.
  set (loginReq := Flow.credentialsRequest allCookies email password csrf)
    in *.
  set (w3 := afterFetch w2 loginReq) in *.
  exists allCookies, csrf. cbv zeta. split; [done |]. split; [done |].
  assert (Hpre3 : trace w3
            = trace w ++ evs
              ++ [Fetch Flow.embedRequest; Fetch csrfReq; Fetch loginReq]).
  { subst w3. cbn [afterFetch trace]. rewrite Hpre2.
    by rewrite <- !app_assoc. }
  pose proof (extractTicket_world (text (answer w2 loginReq)) w3) as Hsame.
  pose proof (extractTicket_errors (text (answer w2 loginReq)) w3) as Hte.
  pose proof (extractTicket_Ok (text (answer w2 loginReq)) w3) as Htk.
  destruct (extractTicket (text (answer w2 loginReq)) w3)
    as [[ticket|e] w3']; cbn [fst snd] in Hsame, Hte, Htk; subst w3'.
  2: { left. exists e. subst run. cbn [fst snd]. by auto. }
  clear Hte. destruct (Htk ticket eq_refl) as (Hlocked & Hmatch). clear Htk.
  right. exists ticket. cbv zeta.
  set (preauth := preauthorizedRequest consumer ticket) in *.
  set (w4 := afterFetch w3 preauth) in *.
  assert (Hpre4 : trace w4
            = trace w ++ evs
              ++ [Fetch Flow.embedRequest; Fetch csrfReq; Fetch loginReq]
              ++ [Fetch preauth]).
  { subst w4. cbn [afterFetch trace]. rewrite Hpre3.
    by rewrite <- !app_assoc. }
  destruct (ok (answer w3 preauth)); cbn [negb] in Hrun.
  2: { left. eexists. subst run. cbn [fst snd].
       split; [|split; [reflexivity | done]]. eauto. }
  destruct (searchParamsGet _ "oauth_token") as [token|] eqn:Htok.
  2: { left. eexists. subst run. cbn [fst snd].
       split; [|split; [reflexivity | done]]. eauto. }
  destruct (searchParamsGet _ "oauth_token_secret") as [secret|] eqn:Hsec.
  2: { left. eexists. subst run. cbn [fst snd].
       split; [|split; [reflexivity | done]]. eauto. }
  destruct (nonempty token) eqn:Hnt; cbn [andb] in Hrun.
  2: { left. eexists. subst run. cbn [fst snd].
       split; [|split; [reflexivity | done]]. eauto. }
  destruct (nonempty secret) eqn:Hns.
  2: { left. eexists. subst run. cbn [fst snd].
       split; [|split; [reflexivity | done]]. eauto. }
  right. exists token, secret.
  split.
  { unfold Flow.reachedTicket, Flow.loginPage, Flow.credentials,
      Flow.afterSigninPage, Flow.signinPage, Flow.afterEmbed, Flow.jar.
    rewrite Hgc. cbn [fst snd]. done. }
  split.
  { unfold Flow.servedOAuth1, Flow.ticketAnswer, Flow.afterCredentials,
      Flow.credentials, Flow.afterSigninPage, Flow.signinPage,
      Flow.afterEmbed, Flow.jar.
    rewrite Hgc. cbn [fst snd]. done. }
  set (w5 := afterSet (afterSet w4 service "oauth1-token" token)
               service "oauth1-secret" secret).
  assert (Hstage : Flow.afterPersist w email password csrf consumer ticket
                     token secret = w5).
  { unfold Flow.afterPersist, Flow.afterTicket, Flow.afterCredentials,
      Flow.credentials, Flow.afterSigninPage, Flow.signinPage,
      Flow.afterEmbed, Flow.jar.
    rewrite Hgc. reflexivity. }
  assert (Htr5 : trace w5
            = trace w ++ evs
              ++ (([Fetch Flow.embedRequest; Fetch csrfReq; Fetch loginReq]
                   ++ [Fetch preauth])
                  ++ [SetSecret service "oauth1-token" token;
                      SetSecret service "oauth1-secret" secret])).
  { unfold w5. cbn [afterSet trace]. rewrite Hpre4.
    by rewrite <- !app_assoc. }
  assert (Hsec5 : secrets w5
            = <[(service, "oauth1-secret") := secret]>
                (<[(service, "oauth1-token") := token]> (secrets w0)))
    by reflexivity.
  pose proof (exchangeOAuth2_run consumer token secret w5) as Hx.
  cbv zeta in Hx. fold service in Hrun. fold w5 in Hrun.
  rewrite Hx in Hrun. clear Hx. clearbody w5.
  destruct (ok (answer w5 (exchangeRequest consumer token secret)))
    eqn:Hok.
  - right. subst run. do 4 eexists.
    cbn [fst snd afterSet afterFetch trace secrets]. rewrite Htr5, Hsec5.
    split; [done |]. split; [by rewrite <- !app_assoc |].
    split; [done |].
    unfold Flow.granted, Flow.exchangeAnswer, Flow.exchangeTime.
    rewrite Hstage. by rewrite Hok.
  - left. subst run. do 2 eexists.
    cbn [fst snd afterSet afterFetch trace secrets]. rewrite Htr5, Hsec5.
    split; [done |]. split; [by rewrite <- !app_assoc |].
    split; [done |].
    unfold Flow.refused, Flow.exchangeAnswer. rewrite Hstage.
    by rewrite Hok.
Qed.







Lemma tokenAccount_key account :
  Flow.tokenAccount account ->
  (serviceName TOOL, account) <> (serviceName TOOL, "consumer-key")
  /\ (serviceName TOOL, account) <> (serviceName TOOL, "consumer-secret").
Proof.
  unfold Flow.tokenAccount. cbn [In].
  intros H. by repeat (destruct H as [<-|H]; [done |]).
Qed.

Lemma other_service_key (service' service account account' : string) :
  service' <> service -> (service', account) <> (service, account').
Proof. intros Hne [= H _]. by apply Hne. Qed.

(** X12. What a login leaves in the keychain. It never touches the
    entries of another service. When it fails before the OAuth2 exchange
    (consumer credentials, CSRF token, locked account, MFA, wrong
    credentials, ticket exchange) the six token entries are as before.
    When it fails in the OAuth2 exchange, the OAuth1 token and secret in
    the keychain are those served in the answer to the ticket exchange of
    this run, both non-empty, while the access token, the refresh token
    and the two expiries are still those of the login before. When it
    succeeds, the OAuth1 token and secret are those served by the ticket
    exchange, and the access token, the refresh token and the two expiries
    are those of the answer to the OAuth2 exchange: the tokens as they
    came, each expiry the clock at that answer plus the lifetime given
    minus 60. *)
Theorem login_keychain email password w :
  let run := login email password w in
  let service := serviceName TOOL in
  (forall service' account,
      service' <> service ->
      secrets run.2 !! (service', account)
      = secrets w !! (service', account))
  /\ match run.1 with
     | Ok _ =>
         exists csrf consumer ticket token secret a r e re,
           Flow.reachedTicket w email password csrf consumer ticket
           /\ Flow.servedOAuth1 w email password csrf consumer ticket token
                secret
           /\ Flow.granted w email password csrf consumer ticket token
                secret a r e re
           /\ secrets run.2 !! (service, "oauth1-token") = Some token
           /\ secrets run.2 !! (service, "oauth1-secret") = Some secret
           /\ secrets run.2 !! (service, "access-token") = Some a
           /\ secrets run.2 !! (service, "refresh-token") = Some r
           /\ secrets run.2 !! (service, "expires-at") = Some e
           /\ secrets run.2 !! (service, "refresh-expires-at") = Some re
     | Throw (OAuth2ExchangeFailed st body) =>
         (exists csrf consumer ticket token secret,
             Flow.reachedTicket w email password csrf consumer ticket
             /\ Flow.servedOAuth1 w email password csrf consumer ticket
                  token secret
             /\ Flow.refused w email password csrf consumer ticket token
                  secret st body
             /\ secrets run.2 !! (service, "oauth1-token") = Some token
             /\ secrets run.2 !! (service, "oauth1-secret") = Some secret)
         /\ forall account,
              In account
                ["access-token"; "refresh-token"; "expires-at";
                 "refresh-expires-at"] ->
              secrets run.2 !! (service, account)
              = secrets w !! (service, account)
     | Throw _ => Flow.sameTokens (secrets w) (secrets run.2)
     end.
Proof.
  intros run service.
  destruct (login_course email password w) as (evs & _ & Hcases).
  fold run service in Hcases.
  destruct (getConsumer_effects w) as (_ & _ & _ & Hkeep).
  assert (Hother0 : forall service' account,
            service' <> service ->
            secrets (getConsumer w).2 !! (service', account)
            = secrets w !! (service', account)).
  { intros service' account Hne.
    apply Hkeep; by apply other_service_key. }
  assert (Hsame0 : Flow.sameTokens (secrets w) (secrets (getConsumer w).2)).
  { intros account Hacc. destruct (tokenAccount_key account Hacc).
    by apply Hkeep. }
  destruct Hcases
    as [(e & Herr & Hres & _ & Hsec)
       |(consumer & cookies & _ & _ & Hcases)].
  { rewrite Hres, Hsec. split; [done |].
    by destruct (getConsumer_errors w e Herr) as [(t & a & ->)|(st & ->)]. }
  destruct Hcases
    as [(_ & Hres & _ & Hsec)|(allCookies & csrf & Hcases)].
  { rewrite Hres, Hsec. by split. }
  cbv zeta in Hcases. destruct Hcases as (_ & _ & Hcases).
  destruct Hcases as [(e & He & Hres & _ & Hsec)|(ticket & Hcases)].
  { rewrite Hres, Hsec. split; [done |].
    by destruct He as [->|[->| ->]]. }
  destruct Hcases
    as [(e & He & Hres & _ & Hsec)
       |(token & secret & Hreached & Hserved & Hcases)].
  { rewrite Hres, Hsec. split; [done |].
    by destruct He as [(st & body' & ->)| ->]. }
  destruct Hcases
    as [(st & body' & Hres & _ & Hsec & Hrefused)
       |(a & r & e & re & Hres & _ & Hsec & Hgranted)].
  - rewrite Hres, Hsec. split; [|split].
    + intros service' account Hne.
      rewrite !lookup_insert_ne by (by apply not_eq_sym, other_service_key).
      by apply Hother0.
    + exists csrf, consumer, ticket, token, secret.
      split; [done |]. split; [done |]. split; [done |]. split.
      * rewrite lookup_insert_ne by done. apply lookup_insert_eq.
      * apply lookup_insert_eq.
    + intros account Hacc.
      assert (Htok : Flow.tokenAccount account).
      { unfold Flow.tokenAccount. cbn [In] in *. tauto. }
      cbn [In] in Hacc.
      rewrite !lookup_insert_ne
        by (intros [= <-];
            repeat (destruct Hacc as [Hacc|Hacc]; [done |]); done).
      by apply Hsame0.
  - rewrite Hres, Hsec. split.
    + intros service' account Hne.
      rewrite !lookup_insert_ne by (by apply not_eq_sym, other_service_key).
      by apply Hother0.
    + exists csrf, consumer, ticket, token, secret, a, r, e, re.
      split; [done |]. split; [done |]. split; [done |].
      repeat split;
        rewrite ?lookup_insert_ne by done; apply lookup_insert_eq.
Qed.

End LoginCourse.

(** ** The CSRF token of the sign-in page *)

Section CsrfToken.
Import JS Garmin.

Lemma untilQuote_sound r u :
  untilQuote r = Some u ->
  (exists post, r = u +:+ String quote post)
  /\ ~ In quote (String.list_ascii_of_string u).
Proof.
  revert u. induction r as [|a r IH]; intros u; [done |].
  cbn [untilQuote].
  destruct (Ascii.eqb_spec a quote) as [->|Hne].
  - intros [= <-]. split; [by exists r | by intros []].
  - destruct (negb _); [done |].
    destruct (untilQuote r) as [u'|]; [|done].
    intros [= <-]. destruct (IH u' eq_refl) as ((post & ->) & Hnot).
    split; [by exists post |].
    cbn. intros [H|H]; [by apply Hne | by apply Hnot].
Qed.

(** What [trimStart] removes is white space only. *)
Lemma trimStart_gap_fuel n s :
  (String.length s < n)%nat ->
  exists gap, s = gap +:+ trimStart s /\ trimStart gap = EmptyString.
Proof.
  revert s. induction n as [|n IH]; intros s Hlen; [lia |].
  destruct s as [|a r]; [by exists EmptyString |].
  assert (Hstay : wsLen (String a r) = 0%nat ->
            exists gap, String a r = gap +:+ trimStart (String a r)
                        /\ trimStart gap = EmptyString).
  { intros H. exists EmptyString. cbn [trimStart]. by rewrite H. }
  destruct (ws1 (code a)) eqn:H1.
  - destruct (IH r) as (gap & Hr & Hgap); [cbn in Hlen; lia |].
    exists (String a gap). cbn [trimStart wsLen]. rewrite H1.
    split; [|done]. rewrite append_cons. by rewrite <- Hr.
  - destruct r as [|b r2];
      [apply Hstay; cbn [wsLen]; by rewrite H1 |].
    destruct (ws2 (code a) (code b)) eqn:H2.
    + destruct (IH r2) as (gap & Hr & Hgap); [cbn in Hlen; lia |].
      exists (String a (String b gap)). cbn [trimStart wsLen].
      rewrite H1, H2.
      split; [|done]. rewrite !append_cons. by rewrite <- Hr.
    + destruct r2 as [|c r3];
        [apply Hstay; cbn [wsLen]; by rewrite H1, H2 |].
      destruct (ws3 (code a) (code b) (code c)) eqn:H3.
      * destruct (IH r3) as (gap & Hr & Hgap); [cbn in Hlen; lia |].
        exists (String a (String b (String c gap))).
        cbn [trimStart wsLen]. rewrite H1, H2, H3.
        split; [|done]. rewrite !append_cons. by rewrite <- Hr.
      * apply Hstay. cbn [wsLen]. by rewrite H1, H2, H3.
Qed.

Lemma trimStart_gap s :
  exists gap, s = gap +:+ trimStart s /\ trimStart gap = EmptyString.
Proof. apply (trimStart_gap_fuel (S (String.length s))). lia. Qed.

Lemma csrfAt_sound s v :
  csrfAt s = Some v ->
  exists gap post c r,
    s = ("name=" +:+ String quote ("_csrf" +:+ String quote EmptyString))
        +:+ gap +:+ ("value=" +:+ String quote EmptyString)
        +:+ v +:+ String quote post
    /\ nonempty gap = true
    /\ trimStart gap = EmptyString
    /\ v = String c r
    /\ ~ In quote (String.list_ascii_of_string r).
Proof.
  unfold csrfAt.
  destruct (stripPrefix _ s) as [rest|] eqn:Hname; [|done].
  apply stripPrefix_Some in Hname.
  destruct (wsLen rest =? 0)%nat eqn:Hws; [done |].
  destruct (stripPrefix _ (trimStart rest)) as [[|c r]|] eqn:Hvalue;
    [done | | done].
  apply stripPrefix_Some in Hvalue.
  destruct (negb _); [done |].
  destruct (untilQuote r) as [u|] eqn:Hu; [|done].
  intros [= <-].
  destruct (untilQuote_sound r u Hu) as ((post & ->) & Hnot).
  destruct (trimStart_gap rest) as (gap & Hrest & Hgap).
  exists gap, post, c, u.
  split; [|split; [|done]].
  - rewrite Hname. f_equal. rewrite Hrest at 1. f_equal.
    rewrite Hvalue. f_equal.
  - destruct gap; [|done].
    rewrite Hvalue in Hrest. rewrite Hrest in Hws. by cbn in Hws.
Qed.

Lemma matchCsrf_absent s :
  includes s ("name=" +:+ String quote ("_csrf" +:+ String quote EmptyString))
  = false ->
  matchCsrf s = None.
Proof.
  induction s as [|c s IH]; [done |].
  cbn [includes matchCsrf]. intros H.
  apply orb_false_iff in H as [Hp Hs].
  unfold csrfAt. rewrite (stripPrefix_prefix _ _ Hp). auto.
Qed.

(** X13. The CSRF token [login] takes from the sign-in page stands in the
    page as the quoted value of a value attribute that follows the name
    attribute of the _csrf field, with white space, at least one character
    of it, and nothing else in between; the token is not empty and holds
    no double quote after its first character. A page that does not
    contain the name attribute of the _csrf field has no token. *)
Theorem matchCsrf_sound (html csrf : string) :
  matchCsrf html = Some csrf ->
  let name :=
    "name=" +:+ String quote ("_csrf" +:+ String quote EmptyString) in
  let value := "value=" +:+ String quote EmptyString in
  includes html name = true
  /\ exists pre gap post c r,
       html = pre +:+ name +:+ gap +:+ value +:+ csrf +:+ String quote post
       /\ nonempty gap = true
       /\ blank gap = true
       /\ csrf = String c r
       /\ ~ In quote (String.list_ascii_of_string r).
Proof.
  intros H name value. split.
  { destruct (includes html name) eqn:Hinc; [done |].
    by rewrite (matchCsrf_absent html Hinc) in H. }
  revert H. induction html as [|a s IH]; [done |].
  cbn [matchCsrf].
  destruct (csrfAt (String a s)) as [v|] eqn:Hat.
  - intros [= ->].
    destruct (csrfAt_sound _ _ Hat)
      as (gap & post & c & r & Hs & Hne & Hgap & Hv & Hnot).
    exists EmptyString, gap, post, c, r.
    split; [exact Hs |]. split; [done |]. split; [|done].
    unfold blank. by rewrite Hgap.
  - intros H.
    destruct (IH H) as (pre & gap & post & c & r & -> & Hrest).
    by exists (String a pre), gap, post, c, r.
Qed.

Lemma matchCsrf_sound_witness :
  let page :=
    "<input name=" +:+ String quote ("_csrf" +:+ String quote
      (" value=" +:+ String quote ("tok" +:+ String quote ">"))) in
  matchCsrf page = Some "tok"
  /\ includes page
       ("name=" +:+ String quote ("_csrf" +:+ String quote EmptyString))
     = true.
Proof.
  split; [by vm_compute |].
  apply (matchCsrf_sound _ "tok"). by vm_compute.
Defined.

End CsrfToken.

(** ** The Garmin tokens in the keychain *)

Section GarminTokens.
Import JS Effects Keychain Garmin.
Implicit Types w : world request response.


Lemma exchangeAgain_errors token secret w e :
  (Flow.exchangeAgain token secret w).1 = Throw e ->
  (exists tool account, e = NoSecretFound tool account)
  \/ (exists st, e = ConsumerFetchFailed st)
  \/ (exists st body, e = OAuth2ExchangeFailed st body).
Proof.
  unfold Flow.exchangeAgain. unfold bind at 1.
  pose proof (getConsumer_errors w) as Hce.
  destruct (getConsumer w) as [[consumer|e'] w0]; cbn [fst snd] in *.
  2: { intros [= <-]. destruct (Hce e' eq_refl) as [H|H]; auto. }
  unfold bind at 1. rewrite exchangeOAuth2_run.
  destruct (ok _).
  - unfold requireSecret, bind, getSecret, ret, throw. cbn [fst snd].
    case_match; cbn [fst]; intros [= <-]. eauto.
  - cbn [fst]. intros [= <-]. eauto 10.
Qed.

Lemma garmin_getValidAccessToken_run w :
  let stored account :=
    trim <$> secrets w !! (serviceName TOOL, account) in
  getValidAccessToken w
  = match stored "access-token" with
    | Some access =>
        if nonempty access then
          if lt (Int (clock w))
               (parseInt (default "0" (stored "expires-at")))
          then (Ok access, w)
          else
            match stored "oauth1-token", stored "oauth1-secret" with
            | Some token, Some secret =>
                if nonempty token && nonempty secret then
                  if ge (Int (clock w))
                       (parseInt
                          (default "0" (stored "refresh-expires-at")))
                  then (Throw RefreshTokenExpired, w)
                  else Flow.exchangeAgain token secret w
                else (Throw OAuth1TokensMissing, w)
            | _, _ => (Throw OAuth1TokensMissing, w)
            end
        else (Throw NotLoggedIn, w)
    | None => (Throw NotLoggedIn, w)
    end.
Proof.
  intros stored. unfold getValidAccessToken.
  unfold bind at 1. unfold getSecret at 1. cbn [fst snd].
  fold (stored "access-token").
  destruct (stored "access-token") as [access|]; [|done].
  destruct (nonempty access); [|done].
  unfold bind at 1. unfold getSecret at 1. cbn [fst snd].
  fold (stored "expires-at").
  unfold bind at 1. cbn [dateNow].
  destruct (lt _ _); [done |].
  unfold refreshWithOAuth1.
  unfold bind at 1. unfold getSecret at 1. cbn [fst snd].
  fold (stored "oauth1-token").
  unfold bind at 1. unfold getSecret at 1. cbn [fst snd].
  fold (stored "oauth1-secret").
  destruct (stored "oauth1-token") as [token|]; [|done].
  destruct (stored "oauth1-secret") as [secret|]; [|done].
  destruct (nonempty token && nonempty secret); [|done].
  unfold bind at 1. unfold getSecret at 1. cbn [fst snd].
  fold (stored "refresh-expires-at").
  by destruct (ge _ _).
Qed.


(** X15. The three refusals of [getValidAccessToken], exactly. It fails
    with "Not logged in" when, and only when, the access token is missing
    or blank; with "OAuth1 tokens missing" when, and only when, there is
    an access token, it is not before its expiry, and the OAuth1 token or
    secret is missing or blank; with "Refresh token expired" when, and
    only when, all three are there, the access token is not before its
    expiry and the clock has reached the expiry of the refresh token. A
    refusal sends nothing and writes nothing. A missing expiry counts as
    0: from second 0 on such an access token is never served and such a
    refresh token is always refused. An expiry that does not start with a
    number never refuses the refresh. *)
Theorem garmin_getValidAccessToken_refusals w :
  let stored account :=
    trim <$> secrets w !! (serviceName TOOL, account) in
  let expiresAt := parseInt (default "0" (stored "expires-at")) in
  let refreshExpiresAt :=
    parseInt (default "0" (stored "refresh-expires-at")) in
  let now := Int (clock w) in
  let run := getValidAccessToken w in
  (run.1 = Throw NotLoggedIn <-> falsy (stored "access-token") = true)
  /\ (run.1 = Throw OAuth1TokensMissing <->
      falsy (stored "access-token") = false
      /\ lt now expiresAt = false
      /\ falsy (stored "oauth1-token") || falsy (stored "oauth1-secret")
         = true)
  /\ (run.1 = Throw RefreshTokenExpired <->
      falsy (stored "access-token") = false
      /\ lt now expiresAt = false
      /\ falsy (stored "oauth1-token") = false
      /\ falsy (stored "oauth1-secret") = false
      /\ ge now refreshExpiresAt = true)
  /\ (run.1 = Throw NotLoggedIn \/ run.1 = Throw OAuth1TokensMissing
      \/ run.1 = Throw RefreshTokenExpired -> run.2 = w)
  /\ (0 <= clock w ->
      (stored "expires-at" = None -> lt now expiresAt = false)
      /\ (stored "refresh-expires-at" = None ->
          ge now refreshExpiresAt = true))
  /\ (refreshExpiresAt = NaN -> run.1 <> Throw RefreshTokenExpired).
Proof.
  intros stored expiresAt refreshExpiresAt now run.
  pose proof (garmin_getValidAccessToken_run w) as Hrun.
  assert (Hlast : forall token secret,
            (Flow.exchangeAgain token secret w).1 <> Throw NotLoggedIn
            /\ (Flow.exchangeAgain token secret w).1
               <> Throw OAuth1TokensMissing
            /\ (Flow.exchangeAgain token secret w).1
               <> Throw RefreshTokenExpired).
  { intros token secret.
    repeat split; intros H;
      by destruct (exchangeAgain_errors _ _ _ _ H)
        as [(? & ? & ?)|[(? & ?)|(? & ? & ?)]]. }
  subst run expiresAt refreshExpiresAt stored now. cbv beta zeta in *.
  rewrite Hrun. clear Hrun.
  set (sa := trim <$> secrets w !! (serviceName TOOL, "access-token")).
  set (se := trim <$> secrets w !! (serviceName TOOL, "expires-at")).
  set (st := trim <$> secrets w !! (serviceName TOOL, "oauth1-token")).
  set (ss := trim <$> secrets w !! (serviceName TOOL, "oauth1-secret")).
  set (sr := trim <$> secrets w
                      !! (serviceName TOOL, "refresh-expires-at")).
  clearbody sa se st ss sr.
  assert (Hzero : 0 <= clock w ->
            (se = None
             -> lt (Int (clock w)) (parseInt (default "0" se)) = false)
            /\ (sr = None
                -> ge (Int (clock w)) (parseInt (default "0" sr)) = true)).
  { intros Hpos. split; intros ->.
    - change (parseInt (default "0" None)) with (Int 0). cbn [lt].
      by destruct (Z.ltb_spec (clock w) 0); [lia |].
    - change (parseInt (default "0" None)) with (Int 0). cbn [ge].
      by destruct (Z.leb_spec 0 (clock w)); [|lia]. }
  assert (Hnan : parseInt (default "0" sr) = NaN ->
                 ge (Int (clock w)) (parseInt (default "0" sr)) = false).
  { by intros ->. }
  revert Hzero Hnan.
  generalize (lt (Int (clock w)) (parseInt (default "0" se))) as fresh.
  generalize (ge (Int (clock w)) (parseInt (default "0" sr))) as dead.
  intros dead fresh Hzero Hnan.
  destruct sa as [access|]; cbn [falsy];
    [destruct (nonempty access) |]; cbn [negb];
    destruct fresh;
    destruct st as [token|], ss as [secret|]; cbn [falsy];
    try destruct (nonempty token); try destruct (nonempty secret);
    cbn [negb andb orb fst snd];
    destruct dead;
    try match goal with
        | |- context [Flow.exchangeAgain ?t ?s w] =>
            destruct (Hlast t s) as (H1 & H2 & H3)
        end;
    repeat split; intros;
    first
      [ done
      | by apply Hzero
      | match goal with
        | Hn : parseInt _ = NaN |- _ => by specialize (Hnan Hn)
        end
      | intuition congruence ].
Qed.

Lemma fetchConsumer_run w :
  let req := get CONSUMER_URL in
  let res := answer w req in
  fetchConsumer w
  = if ok res then
      (Ok (jsonConsumer res),
       afterSet
         (afterSet (afterFetch w req) (serviceName TOOL) "consumer-key"
            (consumer_key (jsonConsumer res)))
         (serviceName TOOL) "consumer-secret"
         (consumer_secret (jsonConsumer res)))
    else (Throw (ConsumerFetchFailed (status res)), afterFetch w req).
Proof.
  cbv zeta. unfold fetchConsumer, bind, fetch, setSecret, ret, throw.
  by destruct (ok _).
Qed.

Lemma getConsumer_run w :
  let stored account :=
    trim <$> secrets w !! (serviceName TOOL, account) in
  getConsumer w
  = if falsy (stored "consumer-key") then fetchConsumer w
    else
      match stored "consumer-secret" with
      | Some secret =>
          (Ok {| consumer_key := default EmptyString (stored "consumer-key");
                 consumer_secret := secret |}, w)
      | None => (Throw (NoSecretFound TOOL "consumer-secret"), w)
      end.
Proof.
  cbv zeta. unfold getConsumer.
  unfold bind at 1. unfold getSecret at 1. cbn [fst snd].
  destruct (trim <$> secrets w !! (serviceName TOOL, "consumer-key"))
    as [key|]; cbn [falsy]; [|done].
  destruct (nonempty key); cbn [negb]; [|done].
  unfold bind, requireSecret, bind, getSecret, ret, throw. cbn [fst snd].
  by destruct (trim <$> secrets w !! (serviceName TOOL, "consumer-secret")).
Qed.

(** X16. The consumer credentials are fetched once. With a non-blank
    consumer key in the keychain [getConsumer] sends nothing and returns
    the stored pair, trimmed; when the key is there but the secret is not,
    it fails with the message of [requireSecret] instead of fetching the
    pair again. With no key, or a blank one, it sends exactly the request
    for the consumer file; a refusal fails with the status and writes
    nothing; otherwise the pair of the answer is returned as it came and
    written to the keychain, so that the next call returns the pair,
    trimmed, without a request, unless the key that was served is blank,
    in which case the next call fetches the file again. *)
Theorem getConsumer_cache w :
  let stored account :=
    trim <$> secrets w !! (serviceName TOOL, account) in
  let req := get CONSUMER_URL in
  let res := answer w req in
  let run := getConsumer w in
  (forall key,
      stored "consumer-key" = Some key -> nonempty key = true ->
      (forall secret,
          stored "consumer-secret" = Some secret ->
          run = (Ok {| consumer_key := key; consumer_secret := secret |},
                 w))
      /\ (stored "consumer-secret" = None ->
          run = (Throw (NoSecretFound TOOL "consumer-secret"), w)))
  /\ (falsy (stored "consumer-key") = true ->
      (ok res = false ->
       run = (Throw (ConsumerFetchFailed (status res)), afterFetch w req))
      /\ (ok res = true ->
          run.1 = Ok (jsonConsumer res)
          /\ trace run.2
             = trace w
               ++ [Fetch req;
                   SetSecret (serviceName TOOL) "consumer-key"
                     (consumer_key (jsonConsumer res));
                   SetSecret (serviceName TOOL) "consumer-secret"
                     (consumer_secret (jsonConsumer res))]
          /\ (nonempty (trim (consumer_key (jsonConsumer res))) = true ->
              getConsumer run.2
              = (Ok {| consumer_key :=
                         trim (consumer_key (jsonConsumer res));
                       consumer_secret :=
                         trim (consumer_secret (jsonConsumer res)) |},
                 run.2))
          /\ (nonempty (trim (consumer_key (jsonConsumer res))) = false ->
              fetches (trace (getConsumer run.2).2)
              = fetches (trace run.2) ++ [req]))).
Proof.
  intros stored req res run.
  pose proof (getConsumer_run w) as Hrun. cbv beta zeta in Hrun.
  fold run in Hrun. subst stored. cbv beta.
  split.
  - intros key Hkey Hne. rewrite Hkey in Hrun. cbn [falsy] in Hrun.
    rewrite Hne in Hrun. cbn [negb default from_option id] in Hrun.
    split.
    + intros secret Hsec. by rewrite Hsec in Hrun.
    + intros Hsec. by rewrite Hsec in Hrun.
  - intros Hno. rewrite Hno in Hrun.
    pose proof (fetchConsumer_run w) as Hf. cbv zeta in Hf.
    fold req res in Hf. rewrite Hf in Hrun. clear Hf.
    split; [intros Hok; by rewrite Hok in Hrun |].
    intros Hok. rewrite Hok in Hrun. clearbody run. subst run.
    cbn [fst snd]. split; [done |].
    split; [cbn [afterSet afterFetch trace]; by rewrite <- !app_assoc |].
    set (w' := afterSet _ _ _ _).
    assert (Hk : trim <$> secrets w' !! (serviceName TOOL, "consumer-key")
                 = Some (trim (consumer_key (jsonConsumer res)))).
    { subst w'. cbn [afterSet secrets].
      rewrite lookup_insert_ne by done. by rewrite lookup_insert_eq. }
    assert (Hs : trim <$> secrets w'
                          !! (serviceName TOOL, "consumer-secret")
                 = Some (trim (consumer_secret (jsonConsumer res)))).
    { subst w'. cbn [afterSet secrets]. by rewrite lookup_insert_eq. }
    pose proof (getConsumer_run w') as Hnext. cbv beta zeta in Hnext.
    rewrite Hk, Hs in Hnext. cbn [falsy default from_option id] in Hnext.
    clearbody w'. split.
    + intros Hne. rewrite Hne in Hnext. by cbn [negb] in Hnext.
    + intros Hblank. rewrite Hblank in Hnext. cbn [negb] in Hnext.
      rewrite Hnext, fetchConsumer_run.
      destruct (ok (answer w' (get CONSUMER_URL)));
        cbn [snd afterSet afterFetch trace];
        unfold fetches; rewrite !omap_app; cbn; by rewrite ?app_nil_r.
Qed.

End GarminTokens.

Section GarminTokensInstances.
Import JS Effects Keychain Garmin.


End GarminTokensInstances.

(** ** Runs of the callback listener *)

Section CallbackFlow.
Import JS Mail.

Variable state : string.

Lemma handler_settles req l :
  settled l = Pending ->
  (falsy (error req) = true /\ falsy (code req) = true
   /\ handler state req l = (WaitingPage, l))
  \/ (Callback.decides state (redirectUri l) (Request req)
        (settled (handler state req l).2)
      /\ settled (handler state req l).2 <> Pending
      /\ (0 < stopTimers (handler state req l).2)%nat).
Proof.
  intros Hp. unfold handler.
  destruct (falsy (error req)) eqn:He; cbn [negb].
  - destruct (falsy (code req)) eqn:Hc; [by left |].
    right.
    destruct (bool_decide_reflect (Mail.state req = Some state))
      as [Hst|Hst]; cbn [negb snd settled settleAndStopLater stopTimers];
      rewrite Hp; cbn [resolve reject Callback.decides].
    + destruct (code req) as [c|]; [|done]. cbn [falsy] in Hc.
      cbn [default from_option id].
      split; [|split; [done | lia]].
      repeat split; try done. by destruct (nonempty c).
    + split; [done |]. split; [done | lia].
  - right. cbn [snd settled settleAndStopLater stopTimers].
    rewrite Hp. cbn [reject Callback.decides].
    destruct (error req) as [x|]; [|done]. cbn [falsy] in He.
    cbn [default from_option id].
    split; [|split; [done | lia]].
    split; [done |]. by destruct (nonempty x).
Qed.

Lemma step_waiting e l :
  Callback.waiting l ->
  (Callback.undecided e /\ (step state e l).2 = l)
  \/ (Callback.decides state (redirectUri l) e (settled (step state e l).2)
      /\ settled (step state e l).2 <> Pending
      /\ (listening (step state e l).2 = false
          \/ (0 < stopTimers (step state e l).2)%nat)).
Proof.
  intros (Hp & Hl & Ha & Hs).
  destruct e as [req| |]; cbn [step].
  - rewrite Hl.
    destruct (handler_settles req l Hp) as [(He & Hc & ->)|(Hd & Hn & Ht)].
    + left. by cbn.
    + right. destruct (handler state req l) as [pg l']. cbn [snd] in *.
      split; [done |]. split; [done |]. by right.
  - left. by rewrite Hs.
  - right. rewrite Ha. cbn [snd settled listening]. rewrite Hp.
    cbn [reject Callback.decides]. split; [done |]. split; [done |].
    by left.
Qed.

Lemma step_port e l : port (step state e l).2 = port l.
Proof.
  destruct e as [req| |]; cbn [step].
  - destruct (listening l); [|done]. unfold handler.
    by repeat case_match; simplify_eq.
  - by destruct (stopTimers l).
  - by destruct (timeoutArmed l).
Qed.

(** A settled flow has stopped listening or is about to. *)
Lemma step_stopping e l :
  listening l = false \/ (0 < stopTimers l)%nat ->
  listening (step state e l).2 = false
  \/ (0 < stopTimers (step state e l).2)%nat.
Proof.
  intros Hstop. destruct e as [req| |]; cbn [step].
  - destruct (listening l) eqn:Hl; [|by left].
    destruct Hstop as [|Hstop]; [done |]. unfold handler.
    repeat case_match; simplify_eq;
      cbn [snd stopTimers settleAndStopLater]; right; lia.
  - destruct (stopTimers l) eqn:Hn; [|by left].
    destruct Hstop as [|Hstop]; [by left | lia].
  - destruct (timeoutArmed l); [by left | done].
Qed.

Lemma step_stopped e l :
  listening l = false ->
  (step state e l).1 = None /\ listening (step state e l).2 = false.
Proof.
  intros Hl. destruct e as [req| |]; cbn [step].
  - by rewrite Hl.
  - by destruct (stopTimers l).
  - by destruct (timeoutArmed l).
Qed.

Lemma run_cons e events l :
  run state (e :: events) l
  = ((step state e l).1 :: (run state events (step state e l).2).1,
     (run state events (step state e l).2).2).
Proof.
  cbn [run]. destruct (step state e l) as [p l']. cbn [fst snd].
  by destruct (run state events l').
Qed.

Lemma run_stopping events l :
  listening l = false \/ (0 < stopTimers l)%nat ->
  listening (run state events l).2 = false
  \/ (0 < stopTimers (run state events l).2)%nat.
Proof.
  revert l. induction events as [|e events IH]; intros l Hstop; [done |].
  rewrite run_cons. cbn [snd]. apply IH. by apply step_stopping.
Qed.

Lemma run_stopped events l :
  listening l = false ->
  (run state events l).1 = map (fun _ => None) events
  /\ listening (run state events l).2 = false.
Proof.
  revert l. induction events as [|e events IH]; intros l Hl; [done |].
  rewrite run_cons. cbn [fst snd map].
  destruct (step_stopped e l Hl) as (-> & Hl').
  destruct (IH _ Hl') as (-> & ->). done.
Qed.

Lemma run_port events l : port (run state events l).2 = port l.
Proof.
  revert l. induction events as [|e events IH]; intros l; [done |].
  rewrite run_cons. cbn [snd]. by rewrite IH, step_port.
Qed.

Lemma run_waiting events l :
  Callback.waiting l ->
  let final := (run state events l).2 in
  (Callback.waiting final /\ Forall Callback.undecided events)
  \/ (exists pre e post,
        events = pre ++ e :: post
        /\ Forall Callback.undecided pre
        /\ Callback.decides state (redirectUri l) e (settled final)
        /\ settled final <> Pending
        /\ (listening final = false \/ (0 < stopTimers final)%nat)).
Proof.
  revert l. induction events as [|e events IH]; intros l Hw final.
  { left. by split. }
  subst final. rewrite run_cons. cbn [snd].
  destruct (step_waiting e l Hw) as [(Hu & Hsame)|(Hd & Hs & Hstop)].
  - rewrite Hsame. destruct (IH l Hw) as [(Hw' & Hall)|Hdec].
    + left. split; [done |]. by apply Forall_cons_2.
    + right. destruct Hdec as (pre & e' & post & -> & Hpre & Hrest).
      exists (e :: pre), e', post. split; [done |].
      split; [by apply Forall_cons_2 | done].
  - right. exists [], e, events. split; [done |].
    split; [apply Forall_nil_2 |].
    rewrite (run_settled state events _ Hs).
    split; [done |]. split; [done |].
    by apply run_stopping.
Qed.

(** X17. A callback flow is settled by the first event that can settle
    it, and by nothing else. After any sequence of requests and timers,
    either the flow is still pending, every event so far was a request
    with neither an error nor a code or a stop timer, and the server still
    listens with its timeout armed; or the events split into undecided
    ones, one deciding event, and the rest, and the outcome is that of the
    deciding event: resolved with the code of a request that carries the
    expected state, a non-empty code and no error, together with the
    address the server listens on; rejected with the error parameter of a
    request; rejected as a state mismatch by a request with a code and
    another state; rejected by the timeout. *)
Theorem callback_flow_outcome (port : Z) (events : list event) :
  let final := (run state events (start port)).2 in
  let uri := "http://localhost:" +:+ numberToString (Int port) in
  (settled final = Pending
   /\ listening final = true /\ timeoutArmed final = true
   /\ Forall Callback.undecided events)
  \/ (exists pre e post,
        events = pre ++ e :: post
        /\ Forall Callback.undecided pre
        /\ settled final <> Pending
        /\ Callback.decides state uri e (settled final)).
Proof.
  intros final uri.
  destruct (run_waiting events (start port)) as [(Hw & Hall)|Hdec].
  { by repeat split. }
  - left. destruct Hw as (Hp & Hl & Ha & _). by repeat split.
  - right. destruct Hdec as (pre & e & post & Hev & Hpre & Hd & Hs & _).
    by exists pre, e, post.
Qed.

(** X18. The server of a callback flow stops for good. Once the flow has
    settled, the server has stopped listening or a stop timer is pending;
    while the flow is pending the server listens. A server that has
    stopped answers no request, never listens again and keeps the
    outcome, whatever arrives. The port never changes. *)
Theorem callback_flow_stops (port : Z) (events more : list event) :
  let final := (run state events (start port)).2 in
  let later := run state more final in
  (settled final <> Pending ->
   listening final = false \/ (0 < stopTimers final)%nat)
  /\ (settled final = Pending -> listening final = true)
  /\ (listening final = false ->
      later.1 = map (fun _ => None) more
      /\ listening later.2 = false
      /\ settled later.2 = settled final)
  /\ Mail.port later.2 = port.
Proof.
  intros final later.
  assert (Hcases : (Callback.waiting final)
                   \/ (settled final <> Pending
                       /\ (listening final = false
                           \/ (0 < stopTimers final)%nat))).
  { destruct (run_waiting events (start port)) as [(Hw & _)|Hdec].
    - by repeat split.
    - by left.
    - right. by destruct Hdec as (pre & e & post & _ & _ & _ & Hs & Hstop). }
  split; [|split; [|split]].
  - intros Hs. destruct Hcases as [(Hp & _)|(_ & Hstop)]; done.
  - intros Hp. destruct Hcases as [(_ & Hl & _)|(Hs & _)]; done.
  - intros Hl. destruct (run_stopped more final Hl) as (Hpages & Hl').
    split; [done |]. split; [done |].
    destruct Hcases as [(_ & Hl'' & _)|(Hs & _)].
    + by rewrite Hl in Hl''.
    + by apply run_settled.
  - subst later final. by rewrite !run_port.
Qed.

End CallbackFlow.
